(** * get-recursive-hoc: prop routing, shapes and the recursive composer

    A shallow embedding of [src/index.tsx] (with the types of [src/types.ts])
    and the properties of its three functions [getMappedProps], [getShape]
    and [getRecursiveHOC].

    A JavaScript string is a sequence of UTF-16 code units.  A [string]
    stands here for the JavaScript string that has one code unit for each
    of its characters, the code of that character: the type holds the
    strings whose code units are below 256 (Latin-1), and [String c s]
    splits a string as [charAt(0)] and [slice(1)] do. *)

From Stdlib Require Import Ascii String.
From stdpp Require Import gmap strings list fin_maps pretty.

Open Scope string_scope.
Open Scope list_scope.

#[local] Set Warnings "-register-all".

(** ** Values of a property bag

    [ComponentProps] is [{ [key: string]: unknown }].  The values that the
    router distinguishes are the ones object spread distinguishes. *)

Inductive value : Type :=
  | VUndefined
  | VNull
  | VBool (b : bool)
  | VNum (z : Z)
  | VStr (s : string)
  | VFun (own : gmap string value)
  | VArr (elems : list value)
  | VObj (fields : gmap string value).

Abbreviation ComponentProps := (gmap string value).

(** [props[key]]: an absent key reads as [undefined]. *)
Definition get (props : ComponentProps) (key : string) : value :=
  default VUndefined (props !! key).

(** ** Object spread

    [{ ...(v as object) }] copies the own enumerable properties of [v]:
    nothing for [undefined], [null], booleans and numbers, the fields of an
    object, the properties set on a function, and the indexed entries of a
    string (one per code unit) or an array. *)

Fixpoint chars (s : string) : list value :=
  match s with
  | EmptyString => []
  | String c rest => VStr (String c EmptyString) :: chars rest
  end.

Definition indexed (l : list value) : ComponentProps :=
  list_to_map (imap (fun i v => (pretty i, v)) l).

Definition spread (v : value) : ComponentProps :=
  match v with
  | VObj fields => fields
  | VArr elems => indexed elems
  | VStr s => indexed (chars s)
  | VFun own => own
  | VUndefined | VNull | VBool _ | VNum _ => ∅
  end.

(** [{ ...a, ...b }]: the entries of [b] overwrite those of [a]. *)
Definition assign (a b : ComponentProps) : ComponentProps := b ∪ a.

(** ** Strings *)

(** [c.toLowerCase()] on one code unit below 256: the letters A-Z and the
    Latin-1 capitals U+00C0-U+00DE, the sign U+00D7 apart, have their small
    letter 32 above; every other code unit is its own lower case. *)
Definition toLowerCase (c : ascii) : ascii :=
  let n := nat_of_ascii c in
  if ((65 <=? n)%nat && (n <=? 90)%nat)
     || ((192 <=? n)%nat && (n <=? 222)%nat && negb (n =? 215)%nat)
  then ascii_of_nat (n + 32) else c.

(** [`${s.charAt(0).toLowerCase()}${s.slice(1)}`] *)
Definition lowerFirst (s : string) : string :=
  match s with
  | EmptyString => EmptyString
  | String c rest => String (toLowerCase c) rest
  end.

(** A string is truthy when it is not empty. *)
Definition truthy (s : string) : bool :=
  match s with
  | EmptyString => false
  | String _ _ => true
  end.

(** ** Renderable units

    A [ReactComponent] is the [Fragment], a component supplied by the caller
    (opaque, named by a tag) or the closure that [getShape] returns, which
    holds the four keys and the three slots it was built from. *)

Inductive ReactComponent : Type :=
  | Fragment
  | Custom (tag : string)
  | Shape (containerID componentID containerName componentName : string)
          (Container Content Component : ReactComponent).

Definition isFragment (c : ReactComponent) : bool :=
  match c with
  | Fragment => true
  | _ => false
  end.

(** [getFragmentProps], lines 14-17. *)
Definition getFragmentProps (component : ReactComponent)
    (props : ComponentProps) : ComponentProps :=
  if isFragment component then ∅ else props.

(** [getMappedProps], lines 20-35. *)
Definition nameWithProps (componentName : string) : string :=
  String.append (lowerFirst componentName) "Props".

Definition getMappedProps (componentID componentName : string)
    (props : ComponentProps) : ComponentProps :=
  if truthy componentID || truthy componentName then
    assign (assign {[ "id" := VStr componentID ]}
                   (spread (get props (nameWithProps componentName))))
           (spread (get props componentID))
  else props.

(** ** Elements

    [<T {...props}>children</T>]: the element records the unit, the props
    object spread into it and the child elements, in source order. *)

Inductive Element : Type :=
  | createElement (type : ReactComponent) (props : ComponentProps)
                  (children : list Element).

(** [getShape], lines 38-70.  The first argument carries four optional
    keys, the second three optional slots; destructuring replaces a missing
    or [undefined] key by [''] and a missing or [undefined] slot by
    [Fragment]. *)

Record ShapeKeys : Type := mkKeys {
  containerID : option string;
  componentID : option string;
  containerName : option string;
  componentName : option string
}.

Record ShapeSlots : Type := mkSlots {
  Container : option ReactComponent;
  Content : option ReactComponent;
  Component : option ReactComponent
}.

Definition noKeys : ShapeKeys := mkKeys None None None None.

Definition getShape (keys : ShapeKeys) (slots : ShapeSlots) : ReactComponent :=
  Shape (default "" (containerID keys)) (default "" (componentID keys))
        (default "" (containerName keys)) (default "" (componentName keys))
        (default Fragment (Container slots)) (default Fragment (Content slots))
        (default Fragment (Component slots)).

(** The body of the closure, lines 48-70. *)
Definition shapeBody (containerID componentID containerName componentName : string)
    (Container Content Component : ReactComponent)
    (props : ComponentProps) : Element :=
  let otherProps := getFragmentProps Content props in
  let componentProps :=
    getFragmentProps Component (getMappedProps componentID componentName props) in
  let containerProps :=
    getFragmentProps Container (getMappedProps containerID containerName props) in
  createElement Container containerProps
    [ createElement Content otherProps [];
      createElement Component componentProps [] ].

(** Calling a unit with a property bag.  Only the closures of [getShape]
    are functions of this module; the other units belong to the caller. *)
Definition call (unit : ReactComponent) (props : ComponentProps) : option Element :=
  match unit with
  | Shape cid pid cname pname Ct Cn Cm => Some (shapeBody cid pid cname pname Ct Cn Cm props)
  | Fragment | Custom _ => None
  end.

(** ** The structure and the composer *)

Inductive ComponentStructure : Type :=
  | mkNode (id component : string) (children : option (list ComponentStructure)).

Definition id (n : ComponentStructure) : string :=
  match n with mkNode i _ _ => i end.
Definition component (n : ComponentStructure) : string :=
  match n with mkNode _ c _ => c end.
Definition children (n : ComponentStructure) : option (list ComponentStructure) :=
  match n with mkNode _ _ ch => ch end.

Abbreviation StructureType := (list ComponentStructure).

(** The registry as [components[name]] reads it (line 79): the map holds
    every property that reading the object finds, its own and those it
    inherits, and a name it does not hold reads as [undefined]. *)
Abbreviation ComponentsMap := (gmap string ReactComponent).

(** The properties every object literal inherits from [Object.prototype].
    Read as a unit each is a value of the host, neither [undefined] nor the
    fragment; a tag names it. *)
Definition objectPrototype : ComponentsMap :=
  list_to_map
    [ ("constructor", Custom "Object");
      ("hasOwnProperty", Custom "Object.prototype.hasOwnProperty");
      ("isPrototypeOf", Custom "Object.prototype.isPrototypeOf");
      ("propertyIsEnumerable", Custom "Object.prototype.propertyIsEnumerable");
      ("toLocaleString", Custom "Object.prototype.toLocaleString");
      ("toString", Custom "Object.prototype.toString");
      ("valueOf", Custom "Object.prototype.valueOf");
      ("__proto__", Custom "Object.prototype");
      ("__defineGetter__", Custom "Object.prototype.__defineGetter__");
      ("__defineSetter__", Custom "Object.prototype.__defineSetter__");
      ("__lookupGetter__", Custom "Object.prototype.__lookupGetter__");
      ("__lookupSetter__", Custom "Object.prototype.__lookupSetter__") ].

(** The registry written as an object literal [{ ...own }]: its own
    properties first, the inherited ones behind them. *)
Definition objectLiteral (own : ComponentsMap) : ComponentsMap :=
  own ∪ objectPrototype.

(** Reading a property of [undefined] raises a [TypeError]. *)
Inductive result (A : Type) : Type :=
  | Ok (a : A)
  | TypeError.
Arguments Ok {A} a.
Arguments TypeError {A}.

#[export] Instance result_ret : MRet result := fun A a => Ok a.
#[export] Instance result_bind : MBind result := fun A B f m =>
  match m with
  | Ok a => f a
  | TypeError => TypeError
  end.

(** Lines 96-99: the shape that puts [Component] after [Result]. *)
Definition nextShape (next : ComponentStructure) (Result : ReactComponent)
    (Component : option ReactComponent) : ReactComponent :=
  getShape
    (if bool_decide (is_Some (children next)) then noKeys
     else mkKeys None (Some (id next)) None (Some (component next)))
    (mkSlots None (Some Result) Component).

(** Lines 73-105 as a fold over the siblings, given the unit of each
    sibling.  [[next, ...other]] of an empty array binds [next] to
    [undefined], and [next.children] then raises. *)
Definition composeWith (unitOf : ComponentStructure → result (option ReactComponent)) :
    StructureType → ReactComponent → result ReactComponent :=
  fix go (structure : StructureType) (Result : ReactComponent) {struct structure} :=
    match structure with
    | [] => TypeError
    | next :: other =>
        Component ← unitOf next;
        let NextResult := nextShape next Result Component in
        match other with
        | [] => Ok NextResult
        | _ :: _ => go other NextResult
        end
    end.

(** Lines 78-93: the unit of one sibling, a shape around the composed
    children for a container and the registry entry itself for a leaf.
    The call on the children goes through [composeWith], which makes the
    recursion structural in the node. *)
Fixpoint getComponent (components : ComponentsMap) (next : ComponentStructure)
    {struct next} : result (option ReactComponent) :=
  match next with
  | mkNode nid ncomponent nchildren =>
      let NextComponent := components !! ncomponent in
      match nchildren with
      | Some ch =>
          Content ← composeWith (getComponent components) ch Fragment;
          Ok (Some (getShape (mkKeys (Some nid) None (Some ncomponent) None)
                             (mkSlots NextComponent (Some Content) None)))
      | None => Ok NextComponent
      end
  end.

Definition getRecursiveHOC (components : ComponentsMap)
    (structure : StructureType) (Result : ReactComponent) : result ReactComponent :=
  composeWith (getComponent components) structure Result.

(** The default export, lines 108-111: [Result] takes its default. *)
Definition getRecursiveHOC_default (components : ComponentsMap)
    (structure : StructureType) : result ReactComponent :=
  getRecursiveHOC components structure Fragment.

(** The same function with its recursion left as the source writes it, a
    call on the children and a call on the tail, run to a bounded depth of
    nested calls; [None] when the bound is reached. *)
Fixpoint getRecursiveHOC_within (depth : nat) (components : ComponentsMap)
    (structure : StructureType) (Result : ReactComponent)
    {struct depth} : option (result ReactComponent) :=
  match depth with
  | 0 => None
  | S depth' =>
      match structure with
      | [] => Some TypeError
      | next :: other =>
          let isContainer := bool_decide (is_Some (children next)) in
          let NextComponent := components !! component next in
          let Component :=
            match children next with
            | Some ch =>
                match getRecursiveHOC_within depth' components ch Fragment with
                | Some (Ok Content) =>
                    Some (Ok (Some (getShape
                      (mkKeys (Some (id next)) None (Some (component next)) None)
                      (mkSlots NextComponent (Some Content) None))))
                | Some TypeError => Some TypeError
                | None => None
                end
            | None => Some (Ok NextComponent)
            end in
          match Component with
          | Some (Ok Component) =>
              let NextResult :=
                getShape
                  (if isContainer then noKeys
                   else mkKeys None (Some (id next)) None (Some (component next)))
                  (mkSlots None (Some Result) Component) in
              if bool_decide (other = []) then Some (Ok NextResult)
              else getRecursiveHOC_within depth' components other NextResult
          | Some TypeError => Some TypeError
          | None => None
          end
      end
  end.

(** ** Rendering

    What the framework draws for a unit called with a property bag and
    already rendered children: a fragment draws its children, a caller's
    component draws one node, recorded with the props spread into its
    element and the children drawn inside it, and a shape draws the element
    its closure returns.  A shape has no children of its own to draw. *)

Inductive Rendered : Type :=
  | Host (tag : string) (props : ComponentProps) (kids : list Rendered).

Fixpoint render (unit : ReactComponent) (props : ComponentProps)
    (kids : list Rendered) {struct unit} : list Rendered :=
  match unit with
  | Fragment => kids
  | Custom tag => [Host tag props kids]
  | Shape cid pid cname pname Ct Cn Cm =>
      render Ct (getFragmentProps Ct (getMappedProps cid cname props))
        (render Cn (getFragmentProps Cn props) []
         ++ render Cm (getFragmentProps Cm (getMappedProps pid pname props)) [])
  end.

Fixpoint renderElement (e : Element) : list Rendered :=
  match e with
  | createElement type props children =>
      render type props (flat_map renderElement children)
  end.

(** The parts of an element. *)
Definition elementType (e : Element) : ReactComponent :=
  match e with createElement type _ _ => type end.
Definition elementProps (e : Element) : ComponentProps :=
  match e with createElement _ props _ => props end.
Definition elementChildren (e : Element) : list Element :=
  match e with createElement _ _ children => children end.

(** The props of the [i]-th child element. *)
Definition childProps (i : nat) (e : Element) : ComponentProps :=
  from_option elementProps ∅ (elementChildren e !! i).

(** ** Slots

    Every [createElement] of a shape hands one props object to one slot.
    [deliveries] lists them, read off the element that the body of the
    closure returns, for a unit and all the shapes below it: for each the
    slot, the unit it holds, the bag of the shape and the props spread into
    the element ([received]). *)

Inductive Slot : Type :=
  | ContainerSlot (ID Name : string)
  | ContentSlot
  | ComponentSlot (ID Name : string).

Record Delivery : Type := mkDelivery {
  slot : Slot;
  target : ReactComponent;
  bag : ComponentProps;
  received : ComponentProps
}.

Fixpoint deliveries (unit : ReactComponent) (props : ComponentProps)
    {struct unit} : list Delivery :=
  match unit with
  | Fragment | Custom _ => []
  | Shape cid pid cname pname Ct Cn Cm =>
      let body := shapeBody cid pid cname pname Ct Cn Cm props in
      let containerProps := elementProps body in
      let otherProps := childProps 0 body in
      let componentProps := childProps 1 body in
      mkDelivery (ContainerSlot cid cname) Ct props containerProps
      :: mkDelivery ContentSlot Cn props otherProps
      :: mkDelivery (ComponentSlot pid pname) Cm props componentProps
      :: deliveries Ct containerProps
      ++ deliveries Cn otherProps
      ++ deliveries Cm componentProps
  end.

(** The names React keeps for itself when it creates an element. *)
Definition reservedProps : list string := ["key"; "ref"; "__self"; "__source"].

(** What React passes on to the unit of a slot, before the defaults that the
    unit declares for itself: the props spread into the element without the
    reserved names and, for the container, which is given the two child
    elements, without a [children] entry of the bag. *)
Definition passed (d : Delivery) : ComponentProps :=
  let own := foldr delete (received d) reservedProps in
  match slot d with
  | ContainerSlot _ _ => delete "children" own
  | ContentSlot | ComponentSlot _ _ => own
  end.

(** ** The hierarchy read directly

    The registry entry of a node, the props routed to it, and the drawing
    of a structure node by node in declaration order. *)

Definition entry (components : ComponentsMap) (n : ComponentStructure) : ReactComponent :=
  default Fragment (components !! component n).

Definition nodeProps (components : ComponentsMap) (props : ComponentProps)
    (n : ComponentStructure) : ComponentProps :=
  getFragmentProps (entry components n) (getMappedProps (id n) (component n) props).

Fixpoint renderNode (components : ComponentsMap) (props : ComponentProps)
    (n : ComponentStructure) {struct n} : list Rendered :=
  match n with
  | mkNode nid ncomponent nchildren =>
      let unit := default Fragment (components !! ncomponent) in
      render unit (getFragmentProps unit (getMappedProps nid ncomponent props))
        match nchildren with
        | Some ch => flat_map (renderNode components props) ch
        | None => []
        end
  end.

Definition renderTree (components : ComponentsMap) (props : ComponentProps)
    (structure : StructureType) : list Rendered :=
  flat_map (renderNode components props) structure.

(** All the nodes of a structure, at every depth. *)
Fixpoint nodesOf (n : ComponentStructure) : list ComponentStructure :=
  match n with
  | mkNode _ _ nchildren =>
      n :: match nchildren with
           | Some ch => flat_map nodesOf ch
           | None => []
           end
  end.

Definition allNodes (structure : StructureType) : list ComponentStructure :=
  flat_map nodesOf structure.

(** No sibling list is empty, at any depth. *)
Fixpoint populatedNode (n : ComponentStructure) : bool :=
  match n with
  | mkNode _ _ nchildren =>
      match nchildren with
      | Some ch => negb (bool_decide (ch = [])) && forallb populatedNode ch
      | None => true
      end
  end.

Definition populated (structure : StructureType) : bool :=
  negb (bool_decide (structure = [])) && forallb populatedNode structure.

(** The number of nodes, the measure of the recursion. *)
Fixpoint nodeSize (n : ComponentStructure) : nat :=
  match n with
  | mkNode _ _ nchildren =>
      S match nchildren with
        | Some ch => list_sum (map nodeSize ch)
        | None => 0
        end
  end.

Definition treeSize (structure : StructureType) : nat :=
  list_sum (map nodeSize structure).

(** The recursive calls of [getRecursiveHOC]: on the children of the head
    (line 87) and, when it is not empty, on the tail (line 103). *)
Inductive calls : StructureType → StructureType → Prop :=
  | calls_children next other ch :
      children next = Some ch → calls (next :: other) ch
  | calls_other next other :
      other ≠ [] → calls (next :: other) other.

(** ** Reading elements and slots *)

(** The props a slot is handed are those of its addressing, unless the
    slot holds the fragment. *)
Definition routed (s : Slot) (props : ComponentProps) : ComponentProps :=
  match s with
  | ContentSlot => props
  | ContainerSlot ID Name | ComponentSlot ID Name => getMappedProps ID Name props
  end.

(** The slot that holds the registry entry of a node: the container slot
    of its own shape for a container, the component slot of the splicing
    shape for a leaf. *)
Definition slotOf (n : ComponentStructure) : Slot :=
  match children n with
  | Some _ => ContainerSlot (id n) (component n)
  | None => ComponentSlot (id n) (component n)
  end.

(** What the composed unit is expected to hand to the registry entry of
    [n] when it is called with [props]. *)
Definition handed (components : ComponentsMap) (props : ComponentProps)
    (n : ComponentStructure) : Delivery :=
  mkDelivery (slotOf n) (entry components n) props (nodeProps components props n).

(** ** Predicates used in the statements *)

(** Whether a call returned. *)
Definition isOk {A : Type} (r : result A) : bool :=
  match r with
  | Ok _ => true
  | TypeError => false
  end.

(** The values whose spread is empty whatever they hold. *)
Definition keyless (v : value) : bool :=
  match v with
  | VUndefined | VNull | VBool _ | VNum _ => true
  | VStr _ | VFun _ | VArr _ | VObj _ => false
  end.

Definition isShape (unit : ReactComponent) : bool :=
  match unit with
  | Shape _ _ _ _ _ _ _ => true
  | Fragment | Custom _ => false
  end.

(** The registry holds the caller's own components. *)
Definition foreign (components : ComponentsMap) : Prop :=
  ∀ name unit, components !! name = Some unit → isShape unit = false.

(** Every shape below [unit] is called with [props]. *)
Definition threaded (unit : ReactComponent) (props : ComponentProps) : Prop :=
  ∀ d, d ∈ deliveries unit props → bag d = props.

(** The unit of [n], once spliced after [Result], draws [Result] and
    then [n]. *)
Definition splices (components : ComponentsMap) (n : ComponentStructure) : Prop :=
  ∀ Component, getComponent components n = Ok Component →
  ∀ Result props kids,
    render (nextShape n Result Component) props kids =
      render Result (getFragmentProps Result props) []
      ++ renderNode components props n.

(** The unit of [n], once spliced after [Result], hands every node of
    [n] its routed props. *)
Definition delivers (components : ComponentsMap) (n : ComponentStructure) : Prop :=
  ∀ Component, getComponent components n = Ok Component →
  ∀ Result props m, m ∈ nodesOf n →
    handed components props m ∈ deliveries (nextShape n Result Component) props.

(** Splicing the unit of [n] after [Result] keeps the one bag. *)
Definition threads (components : ComponentsMap) (n : ComponentStructure) : Prop :=
  ∀ Component, getComponent components n = Ok Component →
  ∀ Result props, threaded Result props →
    threaded (nextShape n Result Component) props.

(** ** Worked inputs *)

(** The bag of the precedence law and the props it is said to route. *)
Definition typeLevel : ComponentProps := <["b" := VNum 1]> {[ "a" := VNum 1 ]}.
Definition idLevel : ComponentProps := <["c" := VNum 3]> {[ "b" := VNum 2 ]}.
Definition lawBag (X T : string) : ComponentProps :=
  <[X := VObj idLevel]> {[ nameWithProps T := VObj typeLevel ]}.
Definition lawProps (X : string) : ComponentProps :=
  <["c" := VNum 3]> (<["b" := VNum 2]> (<["a" := VNum 1]> {[ "id" := VStr X ]})).

(** A leaf [a] followed by a box [row] that holds two leaves [b]. *)
Definition sampleComponents : ComponentsMap :=
  <["Leaf" := Custom "Leaf"]> {[ "Box" := Custom "Box" ]}.

Definition sampleStructure : StructureType :=
  [ mkNode "a" "Leaf" None;
    mkNode "row" "Box" (Some [ mkNode "b" "Leaf" None; mkNode "b" "Leaf" None ]) ].

Definition sampleBag : ComponentProps :=
  <["a" := VObj {[ "v" := VNum 1 ]}]>
    (<["b" := VObj {[ "v" := VNum 2 ]}]>
       {[ "leafProps" := VObj {[ "shared" := VBool true ]} ]}).

(** The unit composed from it. *)
Definition sampleUnit : ReactComponent :=
  Shape "" "" "" "" Fragment
    (Shape "" "a" "" "Leaf" Fragment Fragment (Custom "Leaf"))
    (Shape "row" "" "Box" "" (Custom "Box")
       (Shape "" "b" "" "Leaf" Fragment
          (Shape "" "b" "" "Leaf" Fragment Fragment (Custom "Leaf"))
          (Custom "Leaf"))
       Fragment).

(** Two leaves of different types under one id. *)
Definition sharedComponents : ComponentsMap :=
  <["A" := Custom "A"]> {[ "B" := Custom "B" ]}.

Definition sharedStructure : StructureType :=
  [ mkNode "x" "A" None; mkNode "x" "B" None ].

Definition sharedBag : ComponentProps :=
  <["x" := VObj {[ "v" := VNum 1 ]}]> {[ "aProps" := VObj {[ "s" := VBool true ]} ]}.

(** A registry with a component under the empty name. *)
Definition blankComponents : ComponentsMap := {[ "" := Custom "Any" ]}.

(** ** Measures of a drawing and of a unit *)

(** The caller's components that are drawn, with the props each was
    handed, in pre-order. *)
Fixpoint flatten (r : Rendered) : list (string * ComponentProps) :=
  match r with
  | Host tag props kids => (tag, props) :: flat_map flatten kids
  end.

Definition drawn (l : list Rendered) : list (string * ComponentProps) :=
  flat_map flatten l.

(** What a node by itself contributes to a drawing when its registry entry
    is a component of the caller. *)
Definition drawnOf (components : ComponentsMap) (props : ComponentProps)
    (n : ComponentStructure) : list (string * ComponentProps) :=
  match entry components n with
  | Custom tag => [(tag, nodeProps components props n)]
  | Fragment | Shape _ _ _ _ _ _ _ => []
  end.

(** The number of closures of [getShape] in a unit. *)
Fixpoint shapeCount (unit : ReactComponent) : nat :=
  match unit with
  | Fragment | Custom _ => 0
  | Shape _ _ _ _ Ct Cn Cm => S (shapeCount Ct + shapeCount Cn + shapeCount Cm)
  end.

(** [Array.isArray(next.children)], line 78. *)
Definition isContainer (n : ComponentStructure) : bool :=
  bool_decide (is_Some (children n)).

(** Routing is active for a node: its id or its component name is not
    empty (line 24). *)
Definition addressed (n : ComponentStructure) : bool :=
  truthy (id n) || truthy (component n).

(** * Properties *)

(** Membership in a list written with [::] and [++], as a disjunction. *)
Ltac members := repeat first [rewrite elem_of_cons | rewrite elem_of_app].

(** ** The definitions on small inputs *)

Example nameWithProps_Switch : nameWithProps "Switch" = "switchProps".
Proof. reflexivity. Qed.

Example nameWithProps_TextInput : nameWithProps "TextInput" = "textInputProps".
Proof. reflexivity. Qed.

Example nameWithProps_empty : nameWithProps "" = "Props".
Proof. reflexivity. Qed.

Example spread_string :
  spread (VStr "hi") = <["1" := VStr "i"]> {[ "0" := VStr "h" ]}.
Proof. vm_compute. reflexivity. Qed.

Example toLowerCase_Latin1 :
  lowerFirst (String (ascii_of_nat 201) "lan") = String (ascii_of_nat 233) "lan"
  ∧ toLowerCase (ascii_of_nat 215) = ascii_of_nat 215.
Proof. split; reflexivity. Qed.

Example spread_one_code_unit :
  spread (VStr (String (ascii_of_nat 233) "")) =
    {[ "0" := VStr (String (ascii_of_nat 233) "") ]}.
Proof. vm_compute. reflexivity. Qed.

Example spread_function_properties :
  spread (VFun {[ "displayName" := VStr "Leaf" ]}) = {[ "displayName" := VStr "Leaf" ]}.
Proof. reflexivity. Qed.

Example type_level_index_overwritten :
  getMappedProps "x" "Leaf"
    (<["x" := VObj {[ "0" := VNum 9 ]}]> {[ "leafProps" := VStr "hi" ]})
  = <["1" := VStr "i"]> (<["0" := VNum 9]> {[ "id" := VStr "x" ]}).
Proof. vm_compute. reflexivity. Qed.

Example objectLiteral_inherits :
  objectLiteral ∅ !! "constructor" = Some (Custom "Object")
  ∧ objectLiteral {[ "constructor" := Fragment ]} !! "constructor" = Some Fragment
  ∧ objectLiteral sampleComponents !! "Leaf" = Some (Custom "Leaf")
  ∧ objectLiteral sampleComponents !! "Nope" = None.
Proof. repeat split; vm_compute; reflexivity. Qed.

Example getShape_defaults :
  getShape noKeys (mkSlots None None None) = Shape "" "" "" "" Fragment Fragment Fragment.
Proof. reflexivity. Qed.

Example sample_composed :
  getRecursiveHOC_default sampleComponents sampleStructure = Ok sampleUnit.
Proof. vm_compute. reflexivity. Qed.

Example sample_rendered :
  render sampleUnit sampleBag [] =
    [ Host "Leaf" (<["v" := VNum 1]> (<["shared" := VBool true]> {[ "id" := VStr "a" ]})) [];
      Host "Box" {[ "id" := VStr "row" ]}
        [ Host "Leaf" (<["v" := VNum 2]> (<["shared" := VBool true]> {[ "id" := VStr "b" ]})) [];
          Host "Leaf" (<["v" := VNum 2]> (<["shared" := VBool true]> {[ "id" := VStr "b" ]})) [] ] ].
Proof. vm_compute. reflexivity. Qed.

(** ** The composer, equation by equation *)

(** The body of [getRecursiveHOC] as the source has it: one function that
    calls itself on the children of the head and on the tail. *)
Lemma getRecursiveHOC_unfold components next other Result :
  getRecursiveHOC components (next :: other) Result =
    (let isContainer := bool_decide (is_Some (children next)) in
     let NextComponent := components !! component next in
     Component ←
       match children next with
       | Some ch =>
           Content ← getRecursiveHOC components ch Fragment;
           Ok (Some (getShape
                 (mkKeys (Some (id next)) None (Some (component next)) None)
                 (mkSlots NextComponent (Some Content) None)))
       | None => Ok NextComponent
       end;
     let NextResult :=
       getShape
         (if isContainer then noKeys
          else mkKeys None (Some (id next)) None (Some (component next)))
         (mkSlots None (Some Result) Component) in
     if bool_decide (other = []) then Ok NextResult
     else getRecursiveHOC components other NextResult).
Proof.
  destruct next as [nid ncomponent [ch|]]; cbn [children id component];
    unfold getRecursiveHOC; cbn [composeWith getComponent];
    fold (composeWith (getComponent components)).
  - destruct (composeWith (getComponent components) ch Fragment); cbn; [|done].
    by destruct other.
  - cbn. by destruct other.
Qed.

Lemma getRecursiveHOC_nil components Result :
  getRecursiveHOC components [] Result = TypeError.
Proof. reflexivity. Qed.

(** Induction over a node with its children as a list. *)
Lemma ComponentStructure_nested_ind (P : ComponentStructure → Prop) :
  (∀ nid ncomponent, P (mkNode nid ncomponent None)) →
  (∀ nid ncomponent ch, Forall P ch → P (mkNode nid ncomponent (Some ch))) →
  ∀ n, P n.
Proof.
  intros Hleaf Hcontainer.
  fix IH 1. intros [nid ncomponent [ch|]]; [|apply Hleaf].
  apply Hcontainer. induction ch as [|c ch IHch]; constructor; [apply IH|apply IHch].
Qed.

Lemma getComponent_leaf components nid ncomponent :
  getComponent components (mkNode nid ncomponent None) = Ok (components !! ncomponent).
Proof. reflexivity. Qed.

Lemma getComponent_container components nid ncomponent ch :
  getComponent components (mkNode nid ncomponent (Some ch)) =
    (Content ← getRecursiveHOC components ch Fragment;
     Ok (Some (Shape nid "" ncomponent "" (default Fragment (components !! ncomponent))
                     Content Fragment))).
Proof. reflexivity. Qed.

Lemma getRecursiveHOC_cons components next other Result :
  getRecursiveHOC components (next :: other) Result =
    (Component ← getComponent components next;
     if bool_decide (other = []) then Ok (nextShape next Result Component)
     else getRecursiveHOC components other (nextShape next Result Component)).
Proof.
  unfold getRecursiveHOC. cbn [composeWith].
  destruct (getComponent components next); cbn; [|done]. by destruct other.
Qed.

Lemma getRecursiveHOC_cons_Ok components next other Result H :
  getRecursiveHOC components (next :: other) Result = Ok H →
  ∃ Component, getComponent components next = Ok Component ∧
    ((other = [] ∧ H = nextShape next Result Component) ∨
     (other ≠ [] ∧
      getRecursiveHOC components other (nextShape next Result Component) = Ok H)).
Proof.
  rewrite getRecursiveHOC_cons.
  destruct (getComponent components next) as [C|]; cbn; [|done].
  intros HH. exists C. split; [done|].
  case_bool_decide; [left|right]; split; congruence.
Qed.

Lemma nextShape_leaf nid ncomponent Result Component :
  nextShape (mkNode nid ncomponent None) Result Component =
    Shape "" nid "" ncomponent Fragment Result (default Fragment Component).
Proof. reflexivity. Qed.

Lemma nextShape_container nid ncomponent ch Result Component :
  nextShape (mkNode nid ncomponent (Some ch)) Result Component =
    Shape "" "" "" "" Fragment Result (default Fragment Component).
Proof. reflexivity. Qed.

Lemma nextShape_not_Fragment next Result Component :
  isFragment (nextShape next Result Component) = false.
Proof. reflexivity. Qed.

(** Whatever [getRecursiveHOC] returns is a closure of [getShape]. *)
Lemma composed_not_Fragment components structure Result H :
  getRecursiveHOC components structure Result = Ok H → isFragment H = false.
Proof.
  revert Result. induction structure as [|next other IH]; intros Result; [done|].
  intros (C & _ & [[_ ->]|[_ Hrec]])%getRecursiveHOC_cons_Ok; [done|by eapply IH].
Qed.

Lemma getFragmentProps_not_Fragment unit props :
  isFragment unit = false → getFragmentProps unit props = props.
Proof. unfold getFragmentProps. by intros ->. Qed.

Lemma getMappedProps_unaddressed props : getMappedProps "" "" props = props.
Proof. reflexivity. Qed.

(** ** Composition succeeds exactly on populated structures *)

Lemma populated_cons next other :
  populated (next :: other) = populatedNode next && forallb populatedNode other.
Proof. reflexivity. Qed.

Lemma populatedNode_container nid ncomponent ch :
  populatedNode (mkNode nid ncomponent (Some ch)) = populated ch.
Proof. reflexivity. Qed.

Lemma getRecursiveHOC_isOk_siblings components structure :
  Forall (λ n, isOk (getComponent components n) = populatedNode n) structure →
  ∀ Result, isOk (getRecursiveHOC components structure Result) = populated structure.
Proof.
  induction 1 as [|next other Hnext _ IHother]; intros Result; [done|].
  rewrite getRecursiveHOC_cons, populated_cons, <- Hnext.
  destruct (getComponent components next) as [C|]; cbn; [|done].
  case_bool_decide as Hother; [by subst|].
  rewrite IHother. unfold populated.
  destruct other; [done|]. by rewrite bool_decide_eq_false_2.
Qed.

Lemma getComponent_isOk components n :
  isOk (getComponent components n) = populatedNode n.
Proof.
  induction n as [nid ncomponent|nid ncomponent ch IH]
    using ComponentStructure_nested_ind; [done|].
  rewrite getComponent_container, populatedNode_container.
  rewrite <- (getRecursiveHOC_isOk_siblings components ch IH Fragment).
  by destruct (getRecursiveHOC components ch Fragment).
Qed.

Lemma getRecursiveHOC_isOk components structure Result :
  isOk (getRecursiveHOC components structure Result) = populated structure.
Proof.
  apply getRecursiveHOC_isOk_siblings, Forall_forall.
  intros n _. apply getComponent_isOk.
Qed.

Lemma getRecursiveHOC_populated components structure Result :
  populated structure = true →
  ∃ H, getRecursiveHOC components structure Result = Ok H.
Proof.
  rewrite <- (getRecursiveHOC_isOk components structure Result).
  destruct (getRecursiveHOC components structure Result) as [H|]; [eauto|done].
Qed.

(** ** The composed unit draws the hierarchy in declaration order *)

Section Rendering.
Variable components : ComponentsMap.

Lemma render_shapeBody cid pid cname pname Ct Cn Cm props kids :
  render (Shape cid pid cname pname Ct Cn Cm) props kids =
    renderElement (shapeBody cid pid cname pname Ct Cn Cm props).
Proof. cbn. by rewrite !app_nil_r. Qed.

Lemma siblings_render structure :
  Forall (splices components) structure →
  ∀ Result H, getRecursiveHOC components structure Result = Ok H →
  ∀ props kids,
    render H props kids =
      render Result (getFragmentProps Result props) []
      ++ renderTree components props structure.
Proof.
  induction 1 as [|next other Hnext _ IHother]; intros Result H; [done|].
  intros (C & HC & [[-> ->]|[_ Hrec]])%getRecursiveHOC_cons_Ok props kids.
  - rewrite (Hnext _ HC). unfold renderTree. cbn. by rewrite app_nil_r.
  - rewrite (IHother _ _ Hrec).
    rewrite getFragmentProps_not_Fragment by apply nextShape_not_Fragment.
    rewrite (Hnext _ HC). unfold renderTree. cbn. by rewrite app_assoc.
Qed.

Lemma node_splices n : splices components n.
Proof.
  induction n as [nid ncomponent|nid ncomponent ch IH]
    using ComponentStructure_nested_ind; intros C HC Result props kids.
  - rewrite getComponent_leaf in HC. injection HC as <-. reflexivity.
  - rewrite getComponent_container in HC.
    destruct (getRecursiveHOC components ch Fragment) as [Content|] eqn:Hch;
      cbn in HC; [|done].
    injection HC as <-. rewrite nextShape_container. cbn.
    rewrite (getFragmentProps_not_Fragment Content)
      by (by eapply composed_not_Fragment).
    rewrite (siblings_render ch IH _ _ Hch). cbn.
    by rewrite !app_nil_r.
Qed.

Lemma composed_render structure Result H props kids :
  getRecursiveHOC components structure Result = Ok H →
  render H props kids =
    render Result (getFragmentProps Result props) []
    ++ renderTree components props structure.
Proof.
  intros HH. eapply siblings_render; [|done].
  apply Forall_forall. intros n _. apply node_splices.
Qed.
End Rendering.

(** ** What each slot is handed *)

(** The deliveries of a shape, with the props of the three elements of its
    body written out. *)
Lemma deliveries_Shape cid pid cname pname Ct Cn Cm props :
  deliveries (Shape cid pid cname pname Ct Cn Cm) props =
    mkDelivery (ContainerSlot cid cname) Ct props
      (getFragmentProps Ct (getMappedProps cid cname props))
    :: mkDelivery ContentSlot Cn props (getFragmentProps Cn props)
    :: mkDelivery (ComponentSlot pid pname) Cm props
         (getFragmentProps Cm (getMappedProps pid pname props))
    :: deliveries Ct (getFragmentProps Ct (getMappedProps cid cname props))
    ++ deliveries Cn (getFragmentProps Cn props)
    ++ deliveries Cm (getFragmentProps Cm (getMappedProps pid pname props)).
Proof. reflexivity. Qed.

Lemma deliveries_received unit props d :
  d ∈ deliveries unit props →
  received d = getFragmentProps (target d) (routed (slot d) (bag d)).
Proof.
  revert props.
  induction unit as [| |cid pid cname pname Ct IHt Cn IHn Cm IHm]; intros props;
    cbn [deliveries]; [by intros ?%elem_of_nil..|].
  rewrite !elem_of_cons, !elem_of_app.
  intros [->|[->|[->|[?|[?|?]]]]]; eauto.
Qed.

(** The first three deliveries of a shape are the three elements of its
    body. *)
Lemma deliveries_shapeBody cid pid cname pname Ct Cn Cm props :
  let body := shapeBody cid pid cname pname Ct Cn Cm props in
  take 3 (deliveries (Shape cid pid cname pname Ct Cn Cm) props) =
    mkDelivery (ContainerSlot cid cname) (elementType body) props (elementProps body)
    :: zip_with (λ s e, mkDelivery s (elementType e) props (elementProps e))
         [ContentSlot; ComponentSlot pid pname] (elementChildren body).
Proof. reflexivity. Qed.

Lemma deliveries_Fragment unit props :
  isFragment unit = true → deliveries unit props = [].
Proof. by destruct unit. Qed.

Lemma deliveries_getFragmentProps unit props :
  deliveries unit (getFragmentProps unit props) = deliveries unit props.
Proof. by destruct unit. Qed.

Lemma deliveries_nextShape next Result Component props :
  ∃ ID Name,
    deliveries (nextShape next Result Component) props =
      mkDelivery (ContainerSlot "" "") Fragment props ∅
      :: mkDelivery ContentSlot Result props (getFragmentProps Result props)
      :: mkDelivery (ComponentSlot ID Name) (default Fragment Component) props
           (getFragmentProps (default Fragment Component) (getMappedProps ID Name props))
      :: deliveries Result props
      ++ deliveries (default Fragment Component)
           (getFragmentProps (default Fragment Component) (getMappedProps ID Name props))
    ∧ (ID, Name) = match children next with
                   | Some _ => ("", "")
                   | None => (id next, component next)
                   end.
Proof.
  destruct next as [nid ncomponent [ch|]]; eexists _, _; (split; [|reflexivity]);
    cbn; by rewrite deliveries_getFragmentProps.
Qed.

Section Deliveries.
Variable components : ComponentsMap.

Lemma deliveries_keeps_Result structure : ∀ Result H props d,
  getRecursiveHOC components structure Result = Ok H →
  d ∈ deliveries Result props → d ∈ deliveries H props.
Proof.
  induction structure as [|next other IH]; intros Result H props d; [done|].
  intros (C & HC & [[-> ->]|[_ Hrec]])%getRecursiveHOC_cons_Ok Hd.
  - destruct (deliveries_nextShape next Result C props) as (ID & Name & -> & _).
    rewrite !elem_of_cons, elem_of_app. auto.
  - eapply IH; [done|].
    destruct (deliveries_nextShape next Result C props) as (ID & Name & -> & _).
    rewrite !elem_of_cons, elem_of_app. auto.
Qed.

Lemma siblings_delivered structure :
  Forall (delivers components) structure →
  ∀ Result H props m,
    getRecursiveHOC components structure Result = Ok H →
    m ∈ allNodes structure → handed components props m ∈ deliveries H props.
Proof.
  unfold allNodes.
  induction 1 as [|next other Hnext _ IHother]; intros Result H props m; [done|].
  intros (C & HC & [[-> ->]|[_ Hrec]])%getRecursiveHOC_cons_Ok.
  - cbn. rewrite app_nil_r. by apply Hnext.
  - cbn. rewrite elem_of_app. intros [Hm|Hm]; [|by eapply IHother].
    eapply deliveries_keeps_Result; [done|]. by apply Hnext.
Qed.

Lemma node_delivers n : delivers components n.
Proof.
  induction n as [nid ncomponent|nid ncomponent ch IH]
    using ComponentStructure_nested_ind; intros C HC Result props m.
  - rewrite getComponent_leaf in HC. injection HC as <-.
    cbn [nodesOf]. intros ->%list_elem_of_singleton.
    cbn. rewrite !elem_of_cons. auto.
  - rewrite getComponent_container in HC.
    destruct (getRecursiveHOC components ch Fragment) as [Content|] eqn:Hch;
      cbn in HC; [|done].
    injection HC as <-. cbn [nodesOf]. rewrite nextShape_container. cbn.
    rewrite (getFragmentProps_not_Fragment Content)
      by (by eapply composed_not_Fragment).
    intros Hm. members.
    apply elem_of_cons in Hm as [->|Hm]; [by auto 10|].
    assert (handed components props m ∈ deliveries Content props)
      by (by eapply siblings_delivered).
    auto 15.
Qed.

(** Every node, at every depth, is handed [nodeProps] of the bag the
    composed unit was called with. *)
Lemma composed_delivers structure Result H props m :
  getRecursiveHOC components structure Result = Ok H →
  m ∈ allNodes structure → handed components props m ∈ deliveries H props.
Proof.
  apply siblings_delivered, Forall_forall. intros n _. apply node_delivers.
Qed.
End Deliveries.

(** ** Routing *)

Lemma indexed_lookup_Some (l : list value) (k : string) (v : value) :
  indexed l !! k = Some v ↔ ∃ i : nat, k = pretty i ∧ l !! i = Some v.
Proof.
  unfold indexed. rewrite <- elem_of_list_to_map.
  - rewrite elem_of_lookup_imap. split.
    + intros (i & x & [= -> ->] & Hi). eauto.
    + intros (i & -> & Hi). eauto.
  - rewrite fmap_imap. apply NoDup_alt. intros i j k'.
    rewrite !list_lookup_imap.
    destruct (l !! i), (l !! j); cbn; try done.
    intros [= <-] [= Hij]. by apply (inj pretty) in Hij.
Qed.

Lemma indexed_lookup (l : list value) (i : nat) : indexed l !! pretty i = l !! i.
Proof.
  destruct (l !! i) as [v|] eqn:Hi.
  - apply indexed_lookup_Some. eauto.
  - destruct (indexed l !! pretty i) as [v|] eqn:Hk; [|done].
    apply indexed_lookup_Some in Hk as (j & Hij & Hj).
    apply (inj pretty) in Hij as ->. congruence.
Qed.

Lemma spread_keyless v : keyless v = true → spread v = ∅.
Proof. by destruct v. Qed.

Lemma get_delete_eq props key : get (delete key props) key = VUndefined.
Proof. unfold get. by rewrite lookup_delete_eq. Qed.

Lemma get_delete_ne props key key' :
  key ≠ key' → get (delete key props) key' = get props key'.
Proof. intros Hne. unfold get. by rewrite lookup_delete_ne. Qed.

Lemma getMappedProps_active X T props :
  truthy X || truthy T = true →
  getMappedProps X T props =
    spread (get props X) ∪ (spread (get props (nameWithProps T)) ∪ {[ "id" := VStr X ]}).
Proof. unfold getMappedProps, assign. by intros ->. Qed.

Lemma routing_law_id X T props :
  truthy X || truthy T = true → ∃ v, getMappedProps X T props !! "id" = Some v.
Proof.
  intros Hactive. rewrite getMappedProps_active by done.
  rewrite !lookup_union, lookup_singleton_eq.
  destruct (spread (get props X) !! "id") as [v|];
    [exists v; by rewrite union_Some_l|].
  rewrite (left_id_L None (∪)).
  destruct (spread (get props (nameWithProps T)) !! "id") as [v|];
    [exists v; by rewrite union_Some_l|].
  by eexists.
Qed.

(** C1, as stated, fails: with an empty id and an empty type name the bag
    is returned as it is, and when the id is itself the type-level key the
    bag holds one entry only, so that [a] is not routed. *)
Lemma routing_precedence_unguarded_fails :
  getMappedProps "" "" (lawBag "" "") ≠ lawProps ""
  ∧ getMappedProps "aProps" "A" (lawBag "aProps" "A") ≠ lawProps "aProps".
Proof.
  split; intros Heq; apply (f_equal (lookup "a")) in Heq;
    vm_compute in Heq; discriminate Heq.
Qed.

(** C1 (amended): for a node whose id [X] and type [T] are not both empty,
    the routed props are [{id: X}], overwritten by the entries of the bag's
    value at [lowerFirst(T) + "Props"], overwritten by the entries of the
    bag's value at [X]; and when [X] is not that type-level key, the bag of
    the law routes [{id: X, a: 1, b: 2, c: 3}]. *)
Theorem routing_precedence X T props :
  truthy X || truthy T = true →
  (∀ k, getMappedProps X T props !! k =
          match spread (get props X) !! k with
          | Some v => Some v
          | None =>
              match spread (get props (nameWithProps T)) !! k with
              | Some v => Some v
              | None => if decide (k = "id") then Some (VStr X) else None
              end
          end)
  ∧ (X ≠ nameWithProps T → getMappedProps X T (lawBag X T) = lawProps X).
Proof.
  intros Hactive. rewrite !getMappedProps_active by done. split.
  - intros k. rewrite !lookup_union.
    destruct (spread (get props X) !! k); [by rewrite union_Some_l|].
    rewrite (left_id_L None (∪)).
    destruct (spread (get props (nameWithProps T)) !! k); [by rewrite union_Some_l|].
    rewrite (left_id_L None (∪)). case_decide as Hk; [subst; by rewrite lookup_singleton_eq|].
    by rewrite lookup_singleton_ne.
  - intros Hne. unfold lawBag, get.
    rewrite lookup_insert_eq, lookup_insert_ne, lookup_singleton_eq by done.
    cbn. apply map_eq. intros k.
    unfold lawProps, idLevel, typeLevel. rewrite !lookup_union.
    destruct (decide (k = "c")) as [->|]; [by vm_compute|].
    destruct (decide (k = "b")) as [->|]; [by vm_compute|].
    destruct (decide (k = "a")) as [->|]; [by vm_compute|].
    destruct (decide (k = "id")) as [->|]; [by vm_compute|].
    by rewrite !lookup_insert_ne, !lookup_singleton_ne by done.
Qed.

Lemma routing_precedence_witness :
  truthy "firstInput" || truthy "TextInput" = true
  ∧ getMappedProps "firstInput" "TextInput" (lawBag "firstInput" "TextInput")
    = lawProps "firstInput".
Proof.
  split; [reflexivity|].
  apply (routing_precedence "firstInput" "TextInput" ∅); [reflexivity|].
  vm_compute. discriminate.
Defined.

(** ** One bag for every shape of a composed unit *)

Lemma deliveries_not_Shape unit props : isShape unit = false → deliveries unit props = [].
Proof. by destruct unit. Qed.

Section Threading.
Variable components : ComponentsMap.
Hypothesis Hforeign : foreign components.

Lemma deliveries_entry name props :
  deliveries (default Fragment (components !! name)) props = [].
Proof.
  destruct (components !! name) as [unit|] eqn:Hname; [|done].
  eapply deliveries_not_Shape, Hforeign, Hname.
Qed.

Lemma siblings_threaded structure :
  Forall (threads components) structure →
  ∀ Result H props,
    getRecursiveHOC components structure Result = Ok H →
    threaded Result props → threaded H props.
Proof.
  induction 1 as [|next other Hnext _ IHother]; intros Result H props; [done|].
  intros (C & HC & [[-> ->]|[_ Hrec]])%getRecursiveHOC_cons_Ok HResult.
  - by apply Hnext.
  - eapply IHother; [done|]. by apply Hnext.
Qed.

Lemma node_threads n : threads components n.
Proof.
  induction n as [nid ncomponent|nid ncomponent ch IH]
    using ComponentStructure_nested_ind; intros C HC Result props HResult d.
  - rewrite getComponent_leaf in HC. injection HC as <-.
    rewrite nextShape_leaf, deliveries_Shape. cbn [deliveries].
    rewrite deliveries_entry, deliveries_getFragmentProps.
    members.
    intros [->|[->|[->|[[]%elem_of_nil|[?|[]%elem_of_nil]]]]]; auto.
  - rewrite getComponent_container in HC.
    destruct (getRecursiveHOC components ch Fragment) as [Content|] eqn:Hch;
      cbn in HC; [|done].
    injection HC as <-. rewrite nextShape_container.
    change (default Fragment (Some ?unit)) with unit.
    rewrite deliveries_Shape, getMappedProps_unaddressed.
    change (getFragmentProps (Shape nid "" ncomponent "" _ Content Fragment) props)
      with props.
    rewrite (deliveries_Shape nid). cbn [deliveries].
    rewrite deliveries_entry, !deliveries_getFragmentProps.
    assert (threaded Content props) as HContent.
    { eapply siblings_threaded; [done..|]. by intros ? ?%elem_of_nil. }
    members.
    intros [->|[->|[->|[[]%elem_of_nil|[?|[->|[->|[->|[[]%elem_of_nil|[?|[]%elem_of_nil]]]]]]]]]];
      auto.
Qed.

Lemma composed_threaded structure Result H props :
  getRecursiveHOC components structure Result = Ok H →
  threaded Result props → threaded H props.
Proof.
  apply siblings_threaded, Forall_forall. intros n _. apply node_threads.
Qed.
End Threading.

(** ** Order *)

(** C2: in the element a shape returns, and in what it draws, the content
    slot comes before the component slot; the unit composed from a sibling
    list draws the nodes one after the other in declaration order, each
    container around its own children drawn in declaration order. *)
Theorem order_preservation components :
  (∀ keys slots props kids,
     let Ct := default Fragment (Container slots) in
     let Cn := default Fragment (Content slots) in
     let Cm := default Fragment (Component slots) in
     ∃ pt pn pm,
       call (getShape keys slots) props =
         Some (createElement Ct pt [createElement Cn pn []; createElement Cm pm []])
       ∧ render (getShape keys slots) props kids =
           render Ct pt (render Cn pn [] ++ render Cm pm []))
  ∧ (∀ structure H props,
       getRecursiveHOC_default components structure = Ok H →
       render H props [] = flat_map (renderNode components props) structure)
  ∧ (∀ a b c H props,
       getRecursiveHOC_default components [a; b; c] = Ok H →
       render H props [] =
         renderNode components props a
         ++ renderNode components props b
         ++ renderNode components props c)
  ∧ (∀ nid ncomponent ch props,
       renderNode components props (mkNode nid ncomponent (Some ch)) =
         render (default Fragment (components !! ncomponent))
           (nodeProps components props (mkNode nid ncomponent (Some ch)))
           (flat_map (renderNode components props) ch)).
Proof.
  split; [|split; [|split]].
  - intros keys slots props kids Ct Cn Cm. eexists _, _, _. split; reflexivity.
  - intros structure H props HH.
    by rewrite (composed_render components structure Fragment H props []).
  - intros a b c H props HH.
    rewrite (composed_render components [a; b; c] Fragment H props []) by done.
    unfold renderTree. cbn. by rewrite app_nil_r.
  - reflexivity.
Qed.

Lemma order_preservation_witness :
  getRecursiveHOC_default sampleComponents sampleStructure = Ok sampleUnit
  ∧ render sampleUnit sampleBag [] =
      flat_map (renderNode sampleComponents sampleBag) sampleStructure.
Proof.
  split; [vm_compute; reflexivity|].
  apply (proj1 (proj2 (order_preservation sampleComponents))).
  vm_compute; reflexivity.
Defined.

(** ** Content slots *)

(** C3, as stated, fails: the content slot of the innermost shape holds the
    fragment and is handed the empty bag, not the bag of its shape. *)
Lemma content_pass_through_unguarded_fails :
  ∃ H d,
    getRecursiveHOC_default sampleComponents sampleStructure = Ok H
    ∧ d ∈ deliveries H sampleBag
    ∧ slot d = ContentSlot
    ∧ received d ≠ bag d.
Proof.
  exists sampleUnit, (mkDelivery ContentSlot Fragment sampleBag ∅).
  split; [vm_compute; reflexivity|]. split; [|split; [reflexivity|]].
  - cbn [sampleUnit deliveries]. rewrite !elem_of_cons, !elem_of_app, !elem_of_cons. auto 10.
  - cbn. intros Heq. apply (f_equal (lookup "a")) in Heq. vm_compute in Heq. discriminate Heq.
Qed.

(** C3 (amended): with an empty id and an empty type name routing returns
    the bag unchanged; every content slot that holds a unit other than the
    fragment is handed exactly the bag of its shape, and one that holds the
    fragment is handed the empty bag; below a unit composed over a registry
    of the caller's own components, the bag of every shape is the bag the
    unit was called with. *)
Theorem content_pass_through :
  (∀ props, getMappedProps "" "" props = props)
  ∧ (∀ unit props d,
       d ∈ deliveries unit props → slot d = ContentSlot →
       received d = if isFragment (target d) then ∅ else bag d)
  ∧ (∀ components structure H props d,
       foreign components →
       getRecursiveHOC_default components structure = Ok H →
       d ∈ deliveries H props → bag d = props).
Proof.
  split; [|split].
  - reflexivity.
  - intros unit props d Hd Hslot.
    rewrite (deliveries_received unit props d Hd), Hslot. reflexivity.
  - intros components structure H props d Hforeign HH.
    eapply composed_threaded; [done..|]. by intros ? ?%elem_of_nil.
Qed.

Lemma content_pass_through_witness :
  let d := mkDelivery ContentSlot
             (Shape "" "a" "" "Leaf" Fragment Fragment (Custom "Leaf"))
             sampleBag sampleBag in
  d ∈ deliveries sampleUnit sampleBag ∧ received d = bag d.
Proof.
  assert (mkDelivery ContentSlot
            (Shape "" "a" "" "Leaf" Fragment Fragment (Custom "Leaf"))
            sampleBag sampleBag ∈ deliveries sampleUnit sampleBag) as Hd.
  { cbn [sampleUnit deliveries]. rewrite !elem_of_cons. auto. }
  split; [exact Hd|].
  exact (proj1 (proj2 content_pass_through) sampleUnit sampleBag _ Hd eq_refl).
Defined.

(** ** Empty sibling lists *)

(** C4 (the code at the failing inputs): on an empty sibling list, and on a
    container whose children list is empty, [getRecursiveHOC] raises; so
    does the recursion of the source as soon as it is given any depth. *)
Theorem empty_structure_raises components Result :
  getRecursiveHOC components [] Result = TypeError
  ∧ (∀ nid ncomponent other,
       getRecursiveHOC components (mkNode nid ncomponent (Some []) :: other) Result
       = TypeError)
  ∧ (∀ depth, getRecursiveHOC_within (S depth) components [] Result = Some TypeError)
  ∧ (∀ depth nid ncomponent other,
       getRecursiveHOC_within (S (S depth)) components
         (mkNode nid ncomponent (Some []) :: other) Result
       = Some TypeError).
Proof.
  split; [reflexivity|]. split; [|split; reflexivity].
  intros. by rewrite getRecursiveHOC_cons.
Qed.

(** ** Entries that are not mappings *)

(** C5, as stated, fails: a string stored at the id-scoped key is not
    skipped, its characters are routed under their indices. *)
Lemma malformed_entry_contributes_keys :
  getMappedProps "x" "Leaf" {[ "x" := VStr "hi" ]}
    = <["1" := VStr "i"]> (<["0" := VStr "h"]> {[ "id" := VStr "x" ]})
  ∧ getMappedProps "x" "Leaf" {[ "x" := VStr "hi" ]}
    ≠ getMappedProps "x" "Leaf" ∅.
Proof.
  split; [vm_compute; reflexivity|].
  intros Heq. apply (f_equal (lookup "0")) in Heq. vm_compute in Heq. discriminate Heq.
Qed.

(** C5 (amended): routing is a total function of the bag.  With active
    routing, a value at the type-scoped or at the id-scoped key that is
    [undefined], [null], a boolean or a number is treated as absent.  A
    string or an array is not skipped but spread by index: at the id-scoped
    key its [i]-th code unit or element is routed under the key [i], and at
    the type-scoped key likewise, unless the id-scoped entry itself
    supplies the key [i]. *)
Theorem malformed_entries X T props :
  truthy X || truthy T = true →
  (keyless (get props X) = true →
     getMappedProps X T props = getMappedProps X T (delete X props))
  ∧ (keyless (get props (nameWithProps T)) = true →
     getMappedProps X T props = getMappedProps X T (delete (nameWithProps T) props))
  ∧ (∀ s (i : nat) v, get props X = VStr s → chars s !! i = Some v →
       getMappedProps X T props !! pretty i = Some v)
  ∧ (∀ elems (i : nat) v, get props X = VArr elems → elems !! i = Some v →
       getMappedProps X T props !! pretty i = Some v)
  ∧ (∀ s (i : nat) v,
       get props (nameWithProps T) = VStr s → chars s !! i = Some v →
       spread (get props X) !! pretty i = None →
       getMappedProps X T props !! pretty i = Some v)
  ∧ (∀ elems (i : nat) v,
       get props (nameWithProps T) = VArr elems → elems !! i = Some v →
       spread (get props X) !! pretty i = None →
       getMappedProps X T props !! pretty i = Some v).
Proof.
  intros Hactive. rewrite !getMappedProps_active by done.
  split; [|split; [|split; [|split; [|split]]]].
  - intros Hkeyless. rewrite get_delete_eq, (spread_keyless _ Hkeyless). cbn [spread].
    destruct (decide (X = nameWithProps T)) as [HX|HX].
    + by rewrite <- HX, get_delete_eq, (spread_keyless _ Hkeyless).
    + by rewrite get_delete_ne.
  - intros Hkeyless. rewrite get_delete_eq, (spread_keyless _ Hkeyless). cbn [spread].
    destruct (decide (nameWithProps T = X)) as [HX|HX].
    + by rewrite <- HX, get_delete_eq, (spread_keyless _ Hkeyless).
    + by rewrite get_delete_ne.
  - intros s i v -> Hi. cbn [spread].
    apply lookup_union_Some_l. by rewrite indexed_lookup.
  - intros elems i v -> Hi. cbn [spread].
    apply lookup_union_Some_l. by rewrite indexed_lookup.
  - intros s i v -> Hi Hfree. cbn [spread].
    rewrite lookup_union, Hfree, (left_id_L None (∪)).
    apply lookup_union_Some_l. by rewrite indexed_lookup.
  - intros elems i v -> Hi Hfree. cbn [spread].
    rewrite lookup_union, Hfree, (left_id_L None (∪)).
    apply lookup_union_Some_l. by rewrite indexed_lookup.
Qed.

Lemma malformed_entries_witness :
  let props : ComponentProps :=
    <["x" := VNum 7]> {[ "leafProps" := VStr "hi" ]} in
  truthy "x" || truthy "Leaf" = true
  ∧ keyless (get props "x") = true
  ∧ getMappedProps "x" "Leaf" props = getMappedProps "x" "Leaf" (delete "x" props)
  ∧ getMappedProps "x" "Leaf" props !! pretty 1 = Some (VStr "i").
Proof.
  split; [reflexivity|]. split; [reflexivity|]. split.
  - apply (malformed_entries "x" "Leaf"
             (<["x" := VNum 7]> {[ "leafProps" := VStr "hi" ]})); reflexivity.
  - apply (malformed_entries "x" "Leaf"
             (<["x" := VNum 7]> {[ "leafProps" := VStr "hi" ]})) with "hi";
      reflexivity.
Defined.

(** ** Unknown types *)

Lemma objectLiteral_lookup_None own name :
  objectLiteral own !! name = None ↔
  own !! name = None ∧ objectPrototype !! name = None.
Proof. unfold objectLiteral. apply lookup_union_None. Qed.

(** C6, as stated, fails: the type name [constructor] is absent from the
    registry [{}], yet reading the registry at it finds the inherited
    [Object]; the slot of the node holds it, not the fragment, and is
    handed the routed props. *)
Lemma unknown_type_inherited_name :
  (∅ : ComponentsMap) !! "constructor" = None
  ∧ ∃ H,
      getRecursiveHOC_default (objectLiteral ∅) [ mkNode "x" "constructor" None ] = Ok H
      ∧ call H sharedBag =
          Some (createElement Fragment ∅
                  [ createElement Fragment ∅ [];
                    createElement (Custom "Object")
                      (<["v" := VNum 1]> {[ "id" := VStr "x" ]}) [] ]).
Proof.
  split; [reflexivity|].
  exists (Shape "" "x" "" "constructor" Fragment Fragment (Custom "Object")).
  split; vm_compute; reflexivity.
Qed.

(** C6 (amended): for a node whose type name the registry has no property
    for, neither its own nor inherited, so that reading it yields
    [undefined], and for every structure without an empty sibling list that
    holds the node, composition returns a unit; the slot of the node holds
    the fragment and is handed the empty bag, and the node draws nothing
    but its children. *)
Theorem unknown_type_quiet components n structure Result :
  components !! component n = None →
  n ∈ allNodes structure →
  populated structure = true →
  (∀ own, components = objectLiteral own →
     own !! component n = None ∧ objectPrototype !! component n = None)
  ∧ ∃ H,
      getRecursiveHOC components structure Result = Ok H
      ∧ ∀ props,
          mkDelivery (slotOf n) Fragment props ∅ ∈ deliveries H props
          ∧ renderNode components props n =
              match children n with
              | Some ch => flat_map (renderNode components props) ch
              | None => []
              end.
Proof.
  intros Hunknown Hn Hpopulated. split.
  - intros own ->. by apply objectLiteral_lookup_None.
  - destruct (getRecursiveHOC_populated components structure Result Hpopulated)
      as [H HH].
    exists H. split; [done|]. intros props. split.
    + pose proof (composed_delivers components structure Result H props n HH Hn) as Hd.
      unfold handed, nodeProps, entry in Hd. by rewrite Hunknown in Hd.
    + destruct n as [nid ncomponent nchildren]. cbn in Hunknown |- *.
      by rewrite Hunknown.
Qed.

Lemma unknown_type_quiet_witness :
  let components := objectLiteral sampleComponents in
  let n := mkNode "x" "Nope" None in
  let structure := [ mkNode "a" "Leaf" None; n ] in
  let H := Shape "" "x" "" "Nope" Fragment
             (Shape "" "a" "" "Leaf" Fragment Fragment (Custom "Leaf")) Fragment in
  components !! component n = None
  ∧ n ∈ allNodes structure
  ∧ populated structure = true
  ∧ getRecursiveHOC components structure Fragment = Ok H
  ∧ mkDelivery (slotOf n) Fragment sampleBag ∅ ∈ deliveries H sampleBag.
Proof.
  assert (objectLiteral sampleComponents !! "Nope" = None) as Hunknown
    by (vm_compute; reflexivity).
  assert (mkNode "x" "Nope" None
            ∈ allNodes [ mkNode "a" "Leaf" None; mkNode "x" "Nope" None ]) as Hn.
  { cbn. rewrite !elem_of_cons. auto. }
  split; [exact Hunknown|]. split; [exact Hn|]. split; [reflexivity|].
  destruct (proj2 (unknown_type_quiet (objectLiteral sampleComponents)
                     (mkNode "x" "Nope" None)
                     [ mkNode "a" "Leaf" None; mkNode "x" "Nope" None ] Fragment
                     Hunknown Hn eq_refl)) as (H & HH & Hquiet).
  assert (H = Shape "" "x" "" "Nope" Fragment
                (Shape "" "a" "" "Leaf" Fragment Fragment (Custom "Leaf")) Fragment)
    as -> by (vm_compute in HH; congruence).
  split; [exact HH|]. exact (proj1 (Hquiet sampleBag)).
Defined.

(** ** The fragment *)

(** C7: in the element a shape returns, the container, the content and the
    component element that hold the fragment carry the empty props,
    whatever the keys and the bag; the same holds for every slot of every
    shape below a unit. *)
Theorem null_renderable_isolation :
  (∀ cid pid cname pname Ct Cn Cm props e,
     let body := shapeBody cid pid cname pname Ct Cn Cm props in
     e ∈ body :: elementChildren body →
     elementType e = Fragment → elementProps e = ∅)
  ∧ (∀ unit props d,
       d ∈ deliveries unit props → target d = Fragment → received d = ∅).
Proof.
  split.
  - intros cid pid cname pname Ct Cn Cm props e body.
    unfold body, shapeBody. cbn [elementChildren].
    rewrite !elem_of_cons.
    intros [->|[->|[->|[]%elem_of_nil]]]; cbn; by intros ->.
  - intros unit props d Hd Htarget.
    by rewrite (deliveries_received unit props d Hd), Htarget.
Qed.

Lemma null_renderable_isolation_witness :
  let d := mkDelivery (ContainerSlot "" "") Fragment sampleBag ∅ in
  d ∈ deliveries sampleUnit sampleBag ∧ received d = ∅.
Proof.
  assert (mkDelivery (ContainerSlot "" "") Fragment sampleBag ∅
            ∈ deliveries sampleUnit sampleBag) as Hd.
  { cbn [sampleUnit deliveries]. rewrite !elem_of_cons. auto. }
  split; [exact Hd|].
  exact (proj2 null_renderable_isolation sampleUnit sampleBag _ Hd eq_refl).
Defined.

(** ** Shared ids *)

(** C8, as stated, fails: two nodes with the id [x] and the types [A] and
    [B], called with a bag that holds the key [x] and type-level props for
    [A], are handed different props. *)
Lemma id_sharing_differs_across_types :
  ∃ H p1 p2,
    getRecursiveHOC_default sharedComponents sharedStructure = Ok H
    ∧ is_Some (sharedBag !! "x")
    ∧ render H sharedBag [] = [ Host "A" p1 []; Host "B" p2 [] ]
    ∧ p1 ≠ p2.
Proof.
  exists (Shape "" "x" "" "B" Fragment
            (Shape "" "x" "" "A" Fragment Fragment (Custom "A")) (Custom "B")),
    (<["v" := VNum 1]> (<["s" := VBool true]> {[ "id" := VStr "x" ]})),
    (<["v" := VNum 1]> {[ "id" := VStr "x" ]}).
  split; [vm_compute; reflexivity|]. split; [by eexists|].
  split; [vm_compute; reflexivity|].
  intros Heq. apply (f_equal (lookup "s")) in Heq. vm_compute in Heq. discriminate Heq.
Qed.

(** Each occurrence of a node has a hand-over of its own: the hand-overs
    of the nodes, with their multiplicity, are among the deliveries of the
    composed unit. *)
Lemma siblings_handed_each components structure :
  Forall (λ n, ∀ Component, getComponent components n = Ok Component →
            ∀ Result props,
              (handed components props <$> nodesOf n) ++ deliveries Result props
              ⊆+ deliveries (nextShape n Result Component) props)
         structure →
  ∀ Result H props,
    getRecursiveHOC components structure Result = Ok H →
    (handed components props <$> allNodes structure) ++ deliveries Result props
    ⊆+ deliveries H props.
Proof.
  induction 1 as [|next other Hnext _ IHother]; intros Result H props; [done|].
  intros (C & HC & [[-> ->]|[_ Hrec]])%getRecursiveHOC_cons_Ok.
  - unfold allNodes. cbn [flat_map]. rewrite app_nil_r. by apply Hnext.
  - change (allNodes (next :: other)) with (nodesOf next ++ allNodes other).
    rewrite fmap_app. etrans; [|exact (IHother _ _ props Hrec)].
    rewrite <- (assoc_L (++)), (Permutation_app_swap_app (handed components props <$> nodesOf next)).
    apply submseteq_skips_l. by apply Hnext.
Qed.

Lemma node_handed_each components n :
  ∀ Component, getComponent components n = Ok Component →
  ∀ Result props,
    (handed components props <$> nodesOf n) ++ deliveries Result props
    ⊆+ deliveries (nextShape n Result Component) props.
Proof.
  induction n as [nid ncomponent|nid ncomponent ch IH]
    using ComponentStructure_nested_ind; intros C HC Result props.
  - rewrite getComponent_leaf in HC. injection HC as <-.
    rewrite nextShape_leaf, deliveries_Shape. cbn [nodesOf fmap list_fmap app].
    do 2 apply submseteq_cons. apply submseteq_skip.
    cbn [deliveries app]. rewrite deliveries_getFragmentProps.
    by apply submseteq_inserts_r.
  - rewrite getComponent_container in HC.
    destruct (getRecursiveHOC components ch Fragment) as [Content|] eqn:Hch;
      cbn in HC; [|done].
    injection HC as <-. rewrite nextShape_container.
    change (default Fragment (Some ?unit)) with unit.
    rewrite deliveries_Shape, getMappedProps_unaddressed.
    change (getFragmentProps (Shape nid "" ncomponent "" _ Content Fragment) props)
      with props.
    rewrite (deliveries_Shape nid). cbn [deliveries app nodesOf].
    rewrite !deliveries_getFragmentProps, fmap_cons. fold (allNodes ch).
    pose proof (siblings_handed_each components ch IH Fragment Content props Hch)
      as Hchildren.
    cbn [deliveries] in Hchildren. rewrite app_nil_r in Hchildren.
    do 3 apply submseteq_cons. cbn [app].
    apply submseteq_cons_middle.
    rewrite (comm (++) (handed components props <$> allNodes ch)).
    apply submseteq_skips_l. do 2 apply submseteq_cons.
    by apply submseteq_inserts_l, submseteq_inserts_r.
Qed.

Lemma composed_hands_each components structure Result H props :
  getRecursiveHOC components structure Result = Ok H →
  handed components props <$> allNodes structure ⊆+ deliveries H props.
Proof.
  intros HH. etrans; [apply (submseteq_inserts_r (deliveries Result props)); done|].
  eapply siblings_handed_each; [|done].
  apply Forall_forall. intros n _. apply node_handed_each.
Qed.

(** Two places of a list within another keep apart. *)
Lemma submseteq_two_places {A} (l1 l2 : list A) (i j : nat) (x y : A) :
  l1 ⊆+ l2 → l1 !! i = Some x → l1 !! j = Some y → i ≠ j →
  ∃ i' j', i' ≠ j' ∧ l2 !! i' = Some x ∧ l2 !! j' = Some y.
Proof.
  intros [k Hk]%submseteq_Permutation Hi Hj Hij.
  symmetry in Hk. apply Permutation_inj in Hk as (_ & f & Hf & Hlookup).
  exists (f i), (f j). split; [by intros ?%(inj f)|].
  rewrite <- !Hlookup. split; by apply lookup_app_l_Some.
Qed.

(** C8 (amended): two different places of the tree each have a hand-over of
    their own among those of the composed unit, with the props routed to
    the id and type of their node from the bag the unit was called with.
    When the two nodes share an id and a type name their props are
    identical (also as React passes them on, for two leaves or two
    containers); when they share only a non-empty id [X] and both have a
    registry entry other than the fragment, the props spread into both
    hold every entry of the bag's value at [X], and both are passed each of
    these entries that is not [undefined] and not named by a reserved name
    or [children], which React keeps or replaces. *)
Theorem id_sharing_broadcast components structure Result H props i j n1 n2 :
  getRecursiveHOC components structure Result = Ok H →
  allNodes structure !! i = Some n1 → allNodes structure !! j = Some n2 →
  i ≠ j →
  id n1 = id n2 →
  (∃ i' j', i' ≠ j'
     ∧ deliveries H props !! i' = Some (handed components props n1)
     ∧ deliveries H props !! j' = Some (handed components props n2))
  ∧ (component n1 = component n2 →
     received (handed components props n1) = received (handed components props n2)
     ∧ (isContainer n1 = isContainer n2 →
        passed (handed components props n1) = passed (handed components props n2)))
  ∧ (id n1 ≠ "" →
     isFragment (entry components n1) = false →
     isFragment (entry components n2) = false →
     ∀ k v, spread (get props (id n1)) !! k = Some v →
       (received (handed components props n1) !! k = Some v
        ∧ received (handed components props n2) !! k = Some v)
       ∧ (k ∉ reservedProps → k ≠ "children" → v ≠ VUndefined →
          passed (handed components props n1) !! k = Some v
          ∧ passed (handed components props n2) !! k = Some v)).
Proof.
  intros HH Hn1 Hn2 Hij Hid. split; [|split].
  - eapply (submseteq_two_places _ _ i j); [by eapply composed_hands_each| | |done];
      by rewrite list_lookup_fmap, ?Hn1, ?Hn2.
  - intros Hcomponent.
    assert (received (handed components props n1)
            = received (handed components props n2)) as Hreceived.
    { cbn. unfold nodeProps, entry. by rewrite Hid, Hcomponent. }
    split; [done|]. intros Hcontainer. unfold passed. rewrite Hreceived.
    unfold handed, slotOf, isContainer in *. cbn [slot].
    destruct (children n1), (children n2); try done.
  - intros HX Hentry1 Hentry2 k v Hk.
    assert (received (handed components props n1) !! k = Some v
            ∧ received (handed components props n2) !! k = Some v) as [Hk1 Hk2].
    { cbn. unfold nodeProps.
      rewrite !getFragmentProps_not_Fragment by done.
      assert (truthy (id n1) = true) as Htruthy by (by destruct (id n1)).
      rewrite <- Hid.
      rewrite !getMappedProps_active by (by rewrite Htruthy).
      split; by apply lookup_union_Some_l. }
    split; [done|]. intros Hreserved Hchildren _. unfold passed, reservedProps in *.
    cbn [foldr].
    apply not_elem_of_cons in Hreserved as [? Hreserved].
    apply not_elem_of_cons in Hreserved as [? Hreserved].
    apply not_elem_of_cons in Hreserved as [? Hreserved].
    apply not_elem_of_cons in Hreserved as [? _].
    split; destruct (slot _); by rewrite ?lookup_delete_ne.
Qed.

Lemma id_sharing_broadcast_witness :
  let b := mkNode "b" "Leaf" None in
  getRecursiveHOC sampleComponents sampleStructure Fragment = Ok sampleUnit
  ∧ allNodes sampleStructure !! 2 = Some b
  ∧ allNodes sampleStructure !! 3 = Some b
  ∧ ∃ i' j', i' ≠ j'
      ∧ deliveries sampleUnit sampleBag !! i' = Some (handed sampleComponents sampleBag b)
      ∧ deliveries sampleUnit sampleBag !! j' = Some (handed sampleComponents sampleBag b).
Proof.
  assert (getRecursiveHOC sampleComponents sampleStructure Fragment = Ok sampleUnit)
    as HH by (vm_compute; reflexivity).
  split; [exact HH|]. split; [reflexivity|]. split; [reflexivity|].
  apply (id_sharing_broadcast sampleComponents sampleStructure Fragment
           sampleUnit sampleBag 2 3 (mkNode "b" "Leaf" None) (mkNode "b" "Leaf" None)
           HH eq_refl eq_refl); [discriminate|reflexivity].
Defined.

(** ** Empty addressing *)

(** C9, as stated, fails in its second part: a leaf whose id and component
    name are both [""] under a registry with no entry for [""] has the
    fragment in its slot, which is handed the empty bag and not the bag of
    the unit. *)
Lemma empty_addressing_unregistered_leaf :
  ∃ H,
    getRecursiveHOC_default (objectLiteral sampleComponents) [ mkNode "" "" None ] = Ok H
    ∧ call H sampleBag =
        Some (createElement Fragment ∅
                [ createElement Fragment ∅ []; createElement Fragment ∅ [] ])
    ∧ (∅ : ComponentProps) ≠ sampleBag.
Proof.
  exists (Shape "" "" "" "" Fragment Fragment Fragment).
  split; [vm_compute; reflexivity|]. split; [vm_compute; reflexivity|].
  intros Heq. apply (f_equal (lookup "a")) in Heq. vm_compute in Heq. discriminate Heq.
Qed.

(** C9 (amended): with the empty string for both the id and the type name
    routing returns the bag unchanged, whereas any other addressing routes
    props that hold an [id] field; a leaf whose id and component name are
    both [""] and whose registry entry, read under the name [""], is a
    unit other than the fragment is handed the whole bag of the composed
    unit, anywhere in the structure: the shape that splices it returns an
    element whose component element carries the bag. *)
Theorem empty_addressing_passes_through components structure Result H props unit :
  components !! "" = Some unit → isFragment unit = false →
  getRecursiveHOC components structure Result = Ok H →
  mkNode "" "" None ∈ allNodes structure →
  (∀ bag, getMappedProps "" "" bag = bag)
  ∧ (∀ X T bag, truthy X || truthy T = true → is_Some (getMappedProps X T bag !! "id"))
  ∧ mkDelivery (ComponentSlot "" "") unit props props ∈ deliveries H props
  ∧ renderNode components props (mkNode "" "" None) = render unit props []
  ∧ (∀ Result',
       call (nextShape (mkNode "" "" None) Result' (components !! "")) props =
         Some (createElement Fragment ∅
                 [ createElement Result' (getFragmentProps Result' props) [];
                   createElement unit props [] ])).
Proof.
  intros Hunit Hfragment HH Hn.
  split; [reflexivity|]. split; [|split; [|split]].
  - intros X T bag Hactive.
    destruct (routing_law_id X T bag Hactive) as [v ->]. by eexists.
  - pose proof (composed_delivers components structure Result H props _ HH Hn) as Hd.
    unfold handed, nodeProps, entry in Hd. cbn in Hd. rewrite Hunit in Hd. cbn in Hd.
    by rewrite getFragmentProps_not_Fragment in Hd.
  - cbn. rewrite Hunit. cbn. by rewrite getFragmentProps_not_Fragment.
  - intros Result'. rewrite Hunit. cbn. unfold shapeBody.
    by rewrite getMappedProps_unaddressed, (getFragmentProps_not_Fragment unit).
Qed.

Lemma empty_addressing_passes_through_witness :
  let H := Shape "" "" "" "" Fragment Fragment (Custom "Any") in
  blankComponents !! "" = Some (Custom "Any")
  ∧ getRecursiveHOC blankComponents [mkNode "" "" None] Fragment = Ok H
  ∧ mkDelivery (ComponentSlot "" "") (Custom "Any") sampleBag sampleBag
      ∈ deliveries H sampleBag
  ∧ call H sampleBag =
      Some (createElement Fragment ∅
              [ createElement Fragment ∅ [];
                createElement (Custom "Any") sampleBag [] ]).
Proof.
  assert (blankComponents !! "" = Some (Custom "Any")) as Hunit
    by (vm_compute; reflexivity).
  assert (getRecursiveHOC blankComponents [mkNode "" "" None] Fragment
          = Ok (Shape "" "" "" "" Fragment Fragment (Custom "Any"))) as HH
    by (vm_compute; reflexivity).
  assert (mkNode "" "" None ∈ allNodes [mkNode "" "" None]) as Hn.
  { cbn. rewrite !elem_of_cons. auto. }
  pose proof (empty_addressing_passes_through blankComponents [mkNode "" "" None]
                Fragment _ sampleBag (Custom "Any") Hunit eq_refl HH Hn)
    as (_ & _ & Hdelivered & _ & Hcall).
  split; [exact Hunit|]. split; [exact HH|]. split; [exact Hdelivered|].
  exact (Hcall Fragment).
Defined.

(** ** Termination *)

Lemma treeSize_cons next other :
  treeSize (next :: other) = nodeSize next + treeSize other.
Proof. reflexivity. Qed.

Lemma nodeSize_children next ch :
  children next = Some ch → nodeSize next = S (treeSize ch).
Proof. destruct next as [nid ncomponent nchildren]. cbn. by intros ->. Qed.

Lemma calls_smaller structure structure' :
  calls structure structure' → treeSize structure' < treeSize structure.
Proof.
  intros [next other ch Hch|next other Hother]; rewrite treeSize_cons.
  - rewrite (nodeSize_children next ch Hch). lia.
  - destruct next. cbn. lia.
Qed.

Lemma calls_well_founded : well_founded (λ structure' structure, calls structure structure').
Proof.
  apply (well_founded_lt_compat _ treeSize). intros s' s. apply calls_smaller.
Qed.

Lemma treeSize_tail next other : treeSize other < treeSize (next :: other).
Proof. rewrite treeSize_cons. destruct next. cbn. lia. Qed.

Lemma treeSize_children next other ch :
  children next = Some ch → treeSize ch < treeSize (next :: other).
Proof. intros Hch. rewrite treeSize_cons, (nodeSize_children next ch Hch). lia. Qed.

(** A depth above the number of nodes is enough for the recursion of the
    source, which then computes what [getRecursiveHOC] computes. *)
Lemma getRecursiveHOC_within_enough components depth : ∀ structure Result,
  treeSize structure < depth →
  getRecursiveHOC_within depth components structure Result
  = Some (getRecursiveHOC components structure Result).
Proof.
  induction depth as [|depth IH]; intros structure Result Hdepth; [lia|].
  destruct structure as [|next other]; [done|].
  rewrite getRecursiveHOC_unfold. cbn [getRecursiveHOC_within].
  pose proof (treeSize_tail next other) as Htail.
  destruct (children next) as [ch|] eqn:Hch.
  - pose proof (treeSize_children next other ch Hch) as Hchildren.
    rewrite (IH ch Fragment) by lia.
    destruct (getRecursiveHOC components ch Fragment) as [Content|]; cbn; [|done].
    case_bool_decide; [done|]. apply IH. lia.
  - cbn. case_bool_decide; [done|]. apply IH. lia.
Qed.

(** C10: on a structure none of whose sibling lists is empty
    [getRecursiveHOC] returns a unit, and the recursion of the source
    reaches it within a depth of nested calls bounded by the number of
    nodes; each recursive call, on the children of the head or on the
    non-empty tail, is on a structure with fewer nodes, so that no chain of
    calls is infinite. *)
Theorem composition_terminates components structure Result :
  populated structure = true →
  (∃ H, getRecursiveHOC components structure Result = Ok H
        ∧ ∀ depth, treeSize structure < depth →
            getRecursiveHOC_within depth components structure Result = Some (Ok H))
  ∧ (∀ structure', calls structure structure' →
       treeSize structure' < treeSize structure)
  ∧ Acc (λ structure' structure, calls structure structure') structure.
Proof.
  intros Hpopulated. split; [|split; [apply calls_smaller|apply calls_well_founded]].
  destruct (getRecursiveHOC_populated components structure Result Hpopulated)
    as [H HH].
  exists H. split; [done|]. intros depth Hdepth.
  by rewrite getRecursiveHOC_within_enough, HH.
Qed.

Lemma composition_terminates_witness :
  populated sampleStructure = true
  ∧ ∃ H, getRecursiveHOC sampleComponents sampleStructure Fragment = Ok H
         ∧ ∀ depth, treeSize sampleStructure < depth →
             getRecursiveHOC_within depth sampleComponents sampleStructure Fragment
             = Some (Ok H).
Proof.
  split; [reflexivity|].
  apply (composition_terminates sampleComponents sampleStructure Fragment).
  reflexivity.
Defined.

(** * Further properties of the three functions *)

(** ** Composing a list in two parts *)

(** X2: composing the concatenation of two non-empty sibling lists is
    composing the first and then the second with the unit of the first as
    its [Result]; an error in either part is the error of the whole. *)
Theorem compose_app components s1 s2 Result :
  s1 ≠ [] → s2 ≠ [] →
  getRecursiveHOC components (s1 ++ s2) Result =
    (H1 ← getRecursiveHOC components s1 Result; getRecursiveHOC components s2 H1).
Proof.
  intros Hs1 Hs2. revert Result Hs1.
  induction s1 as [|next rest IH]; intros Result Hs1; [done|].
  rewrite <- app_comm_cons, !getRecursiveHOC_cons.
  destruct (getComponent components next) as [C|]; cbn; [|done].
  rewrite bool_decide_eq_false_2 by (by destruct rest, s2).
  case_bool_decide as Hrest; [by subst|]. by apply IH.
Qed.

Lemma compose_app_witness :
  let s1 := [ mkNode "a" "Leaf" None ] in
  let s2 := [ mkNode "row" "Box" (Some [ mkNode "b" "Leaf" None; mkNode "b" "Leaf" None ]) ] in
  s1 ≠ [] ∧ s2 ≠ []
  ∧ getRecursiveHOC sampleComponents (s1 ++ s2) Fragment =
      (H1 ← getRecursiveHOC sampleComponents s1 Fragment;
       getRecursiveHOC sampleComponents s2 H1).
Proof.
  split; [discriminate|]. split; [discriminate|].
  apply compose_app; discriminate.
Defined.

(** ** A unit to start from *)

(** X3: when [getRecursiveHOC] is given a [Result] to start from, the
    composed unit draws that [Result] first, called with the whole bag (with
    the empty bag when it is the fragment), and the structure after it. *)
Theorem initial_Result_drawn_first components structure Result H props :
  getRecursiveHOC components structure Result = Ok H →
  render H props [] =
    render Result (if isFragment Result then ∅ else props) []
    ++ flat_map (renderNode components props) structure.
Proof. intros HH. by rewrite (composed_render components structure Result H props []). Qed.

Lemma initial_Result_drawn_first_witness :
  let H := Shape "" "a" "" "Leaf" Fragment (Custom "Header") (Custom "Leaf") in
  getRecursiveHOC sampleComponents [ mkNode "a" "Leaf" None ] (Custom "Header") = Ok H
  ∧ render H sampleBag [] =
      Host "Header" sampleBag []
      :: flat_map (renderNode sampleComponents sampleBag) [ mkNode "a" "Leaf" None ].
Proof.
  assert (getRecursiveHOC sampleComponents [ mkNode "a" "Leaf" None ] (Custom "Header")
          = Ok (Shape "" "a" "" "Leaf" Fragment (Custom "Header") (Custom "Leaf"))) as HH
    by (vm_compute; reflexivity).
  split; [exact HH|].
  exact (initial_Result_drawn_first sampleComponents _ (Custom "Header") _ sampleBag HH).
Defined.

(** ** When composition raises *)

Lemma populatedNode_false n :
  populatedNode n = false ↔ ∃ m, m ∈ nodesOf n ∧ children m = Some [].
Proof.
  induction n as [nid ncomponent|nid ncomponent ch IH]
    using ComponentStructure_nested_ind.
  - cbn. split; [done|]. by intros (m & ->%list_elem_of_singleton & ?).
  - cbn [populatedNode nodesOf]. destruct ch as [|c ch].
    + cbn. split; [|done]. intros _. eexists. split; [apply list_elem_of_here|done].
    + rewrite bool_decide_eq_false_2 by done. cbn [negb andb]. split.
      * intros Hfalse.
        assert (∃ n', n' ∈ c :: ch ∧ populatedNode n' = false) as (n' & Hn' & Hfalse').
        { clear IH. induction (c :: ch) as [|x l IHl]; [done|]. cbn in Hfalse.
          destruct (populatedNode x) eqn:Hx.
          - destruct (IHl Hfalse) as (n' & ? & ?). exists n'. split; [by right|done].
          - exists x. split; [by left|done]. }
        rewrite Forall_forall in IH.
        apply (IH n' Hn') in Hfalse' as (m & Hm & Hempty).
        exists m. split; [|done]. right. apply list_elem_of_In, in_flat_map.
        exists n'. by rewrite <- !list_elem_of_In.
      * intros (m & Hm & Hempty). apply elem_of_cons in Hm as [->|Hm]; [done|].
        apply list_elem_of_In, in_flat_map in Hm as (n' & Hn' & Hm).
        rewrite <- !list_elem_of_In in *. rewrite Forall_forall in IH.
        assert (populatedNode n' = false) as Hfalse by (apply (IH n' Hn'); eauto).
        clear IH. induction (c :: ch) as [|x l IHl]; [by apply elem_of_nil in Hn'|].
        cbn. apply elem_of_cons in Hn' as [->|Hn']; [by rewrite Hfalse|].
        rewrite (IHl Hn'). by destruct (populatedNode x).
Qed.

Lemma forallb_populatedNode_false structure :
  forallb populatedNode structure = false ↔
  ∃ m, m ∈ allNodes structure ∧ children m = Some [].
Proof.
  unfold allNodes. induction structure as [|next other IH]; cbn.
  - split; [done|]. by intros (m & ?%elem_of_nil & _).
  - rewrite andb_false_iff, populatedNode_false, IH. split.
    + intros [(m & Hm & ?)|(m & Hm & ?)]; exists m; rewrite elem_of_app; eauto.
    + intros (m & [Hm|Hm]%elem_of_app & ?); eauto.
Qed.

(** X4: [getRecursiveHOC] raises exactly when the sibling list is empty or
    some node, at any depth, has an empty children list; the registry and
    the [Result] play no part in it. *)
Theorem raises_iff_empty_list components structure Result :
  getRecursiveHOC components structure Result = TypeError ↔
  structure = [] ∨ ∃ m, m ∈ allNodes structure ∧ children m = Some [].
Proof.
  rewrite <- forallb_populatedNode_false.
  pose proof (getRecursiveHOC_isOk components structure Result) as HisOk.
  unfold populated in HisOk.
  destruct (getRecursiveHOC components structure Result) as [H|]; cbn in HisOk.
  - symmetry in HisOk. apply andb_true_iff in HisOk as [Hne Hall].
    apply negb_true_iff, bool_decide_eq_false in Hne.
    split; [done|]. intros [?|Hfalse]; [done|congruence].
  - split; [|done]. intros _. symmetry in HisOk.
    apply andb_false_iff in HisOk as [Hnil|?]; [left|by right].
    by apply negb_false_iff, bool_decide_eq_true in Hnil.
Qed.

(** ** The root of a composed unit *)

(** X5: the element a composed unit returns is a fragment with empty props
    around exactly two elements, the content first with the bag of the
    unit; the composer adds no wrapper of its own around the structure. *)
Theorem composed_root_is_fragment components structure Result H props :
  getRecursiveHOC components structure Result = Ok H →
  ∃ Cn Cm pm,
    call H props =
      Some (createElement Fragment ∅
              [ createElement Cn (getFragmentProps Cn props) [];
                createElement Cm pm [] ]).
Proof.
  revert Result. induction structure as [|next other IH]; intros Result; [done|].
  intros (C & _ & [[_ ->]|[_ Hrec]])%getRecursiveHOC_cons_Ok; [|by eapply IH].
  destruct next as [nid ncomponent [ch|]]; by eexists _, _, _.
Qed.

Lemma composed_root_is_fragment_witness :
  getRecursiveHOC sampleComponents sampleStructure Fragment = Ok sampleUnit
  ∧ ∃ Cn Cm pm,
      call sampleUnit sampleBag =
        Some (createElement Fragment ∅
                [ createElement Cn (getFragmentProps Cn sampleBag) [];
                  createElement Cm pm [] ]).
Proof.
  assert (getRecursiveHOC sampleComponents sampleStructure Fragment = Ok sampleUnit)
    as HH by (vm_compute; reflexivity).
  split; [exact HH|].
  exact (composed_root_is_fragment sampleComponents sampleStructure Fragment
           sampleUnit sampleBag HH).
Defined.

(** ** Every node once, in document order *)

Lemma drawn_app l1 l2 : drawn (l1 ++ l2) = drawn l1 ++ drawn l2.
Proof. unfold drawn. apply flat_map_app. Qed.

Lemma drawn_flat_map {A} (f : A → list Rendered) (l : list A) :
  drawn (flat_map f l) = flat_map (λ x, drawn (f x)) l.
Proof.
  induction l as [|x l IH]; [done|]. cbn. by rewrite drawn_app, IH.
Qed.

Lemma flat_map_ext_Forall {A B} (f g : A → list B) (l : list A) :
  Forall (λ x, f x = g x) l → flat_map f l = flat_map g l.
Proof. induction 1 as [|x l Hx _ IH]; [done|]. cbn. by rewrite Hx, IH. Qed.

Lemma flat_map_flat_map {A B C} (f : A → list B) (g : B → list C) (l : list A) :
  flat_map g (flat_map f l) = flat_map (λ x, flat_map g (f x)) l.
Proof.
  induction l as [|x l IH]; [done|]. cbn. by rewrite flat_map_app, IH.
Qed.

Lemma renderNode_entry components props n :
  renderNode components props n =
    render (entry components n) (nodeProps components props n)
      match children n with
      | Some ch => flat_map (renderNode components props) ch
      | None => []
      end.
Proof. by destruct n. Qed.

Lemma drawn_render_entry components props n kids :
  foreign components →
  drawn (render (entry components n) (nodeProps components props n) kids)
  = drawnOf components props n ++ drawn kids.
Proof.
  intros Hforeign. unfold drawnOf, nodeProps, entry.
  destruct (components !! component n) as [unit|] eqn:Hentry; [|done].
  apply Hforeign in Hentry. destruct unit; try done.
  cbn. unfold drawn. by rewrite app_nil_r.
Qed.

Lemma drawn_renderNode components props n :
  foreign components →
  drawn (renderNode components props n)
  = flat_map (drawnOf components props) (nodesOf n).
Proof.
  intros Hforeign.
  induction n as [nid ncomponent|nid ncomponent ch IH]
    using ComponentStructure_nested_ind;
    rewrite renderNode_entry, drawn_render_entry by done;
    cbn [children nodesOf flat_map]; f_equal.
  rewrite drawn_flat_map, flat_map_flat_map.
  by apply flat_map_ext_Forall.
Qed.

(** X6: over a registry of the caller's own components, the components
    that the unit of the default export draws, listed in pre-order with the
    props spread into the element of each, are exactly the nodes of the
    structure whose type reads as such a component, in document order, each
    once and with the props routed to its own id and type; nothing else is
    drawn. *)
Theorem every_node_once_in_document_order components structure H props :
  foreign components →
  getRecursiveHOC_default components structure = Ok H →
  drawn (render H props []) = flat_map (drawnOf components props) (allNodes structure).
Proof.
  intros Hforeign HH.
  rewrite (composed_render components structure Fragment H props []) by done.
  cbn [render app]. unfold renderTree, allNodes.
  rewrite drawn_flat_map, flat_map_flat_map.
  apply flat_map_ext_Forall, Forall_forall. intros n _.
  by apply drawn_renderNode.
Qed.

Lemma sampleComponents_foreign : foreign sampleComponents.
Proof.
  intros name unit. unfold sampleComponents.
  rewrite lookup_insert. case_decide; [by intros [= <-]|].
  rewrite lookup_singleton. case_decide; [by intros [= <-]|done].
Defined.

Lemma every_node_once_in_document_order_witness :
  foreign sampleComponents
  ∧ getRecursiveHOC_default sampleComponents sampleStructure = Ok sampleUnit
  ∧ drawn (render sampleUnit sampleBag [])
    = flat_map (drawnOf sampleComponents sampleBag) (allNodes sampleStructure).
Proof.
  assert (getRecursiveHOC_default sampleComponents sampleStructure = Ok sampleUnit)
    as HH by (vm_compute; reflexivity).
  split; [exact sampleComponents_foreign|]. split; [exact HH|].
  exact (every_node_once_in_document_order sampleComponents sampleStructure
           sampleUnit sampleBag sampleComponents_foreign HH).
Defined.

(** ** The registry is read at the type names of the nodes only *)

Lemma nextShape_default next Result Component :
  nextShape next Result Component
  = nextShape next Result (Some (default Fragment Component)).
Proof. by destruct Component. Qed.

Lemma getRecursiveHOC_step components next other Result :
  getRecursiveHOC components (next :: other) Result =
    (NextResult ← (Component ← getComponent components next;
                   Ok (nextShape next Result Component));
     if bool_decide (other = []) then Ok NextResult
     else getRecursiveHOC components other NextResult).
Proof.
  rewrite getRecursiveHOC_cons. by destruct (getComponent components next).
Qed.

Lemma registry_read_siblings c1 c2 structure :
  Forall (λ n, ∀ Result,
            (Component ← getComponent c1 n; Ok (nextShape n Result Component))
            = (Component ← getComponent c2 n; Ok (nextShape n Result Component)))
         structure →
  ∀ Result, getRecursiveHOC c1 structure Result = getRecursiveHOC c2 structure Result.
Proof.
  induction 1 as [|next other Hnext _ IHother]; intros Result; [done|].
  rewrite !getRecursiveHOC_step, Hnext.
  destruct (Component ← getComponent c2 next; Ok (nextShape next Result Component))
    as [NextResult|]; cbn; [|done].
  case_bool_decide; [done|apply IHother].
Qed.

Lemma registry_read_node c1 c2 n :
  (∀ m, m ∈ nodesOf n → entry c1 m = entry c2 m) →
  ∀ Result,
    (Component ← getComponent c1 n; Ok (nextShape n Result Component))
    = (Component ← getComponent c2 n; Ok (nextShape n Result Component)).
Proof.
  induction n as [nid ncomponent|nid ncomponent ch IH]
    using ComponentStructure_nested_ind; intros Hentries Result.
  - pose proof (Hentries _ (list_elem_of_here _ _)) as Hentry.
    unfold entry in Hentry. cbn in Hentry.
    rewrite !getComponent_leaf. cbn.
    by rewrite (nextShape_default _ _ (c1 !! ncomponent)), Hentry, <- nextShape_default.
  - pose proof (Hentries _ (list_elem_of_here _ _)) as Hentry.
    unfold entry in Hentry. cbn in Hentry.
    rewrite !getComponent_container, Hentry.
    rewrite (registry_read_siblings c1 c2 ch); [done|].
    rewrite Forall_forall in IH. apply Forall_forall. intros c Hc.
    apply (IH c Hc). intros m Hm. apply Hentries. cbn [nodesOf]. right.
    apply list_elem_of_In, in_flat_map. exists c. by rewrite <- !list_elem_of_In.
Qed.

(** X7: the composed unit depends on the registry only through what
    reading it yields at the component names of the nodes, [undefined] and
    the fragment counting the same: two registries that read alike there,
    up to that, compose the same unit or both raise. *)
Theorem registry_read_at_nodes_only c1 c2 structure Result :
  (∀ m, m ∈ allNodes structure → entry c1 m = entry c2 m) →
  getRecursiveHOC c1 structure Result = getRecursiveHOC c2 structure Result.
Proof.
  intros Hentries. apply registry_read_siblings, Forall_forall.
  intros n Hn. apply registry_read_node. intros m Hm. apply Hentries.
  apply list_elem_of_In, in_flat_map. exists n. by rewrite <- !list_elem_of_In.
Qed.

Lemma registry_read_at_nodes_only_witness :
  let c1 := <["Nope" := Fragment]> (<["Unused" := Custom "U"]> sampleComponents) in
  (∀ m, m ∈ allNodes sampleStructure → entry c1 m = entry sampleComponents m)
  ∧ getRecursiveHOC c1 sampleStructure Fragment
    = getRecursiveHOC sampleComponents sampleStructure Fragment.
Proof.
  assert (∀ m, m ∈ allNodes sampleStructure →
            entry (<["Nope" := Fragment]> (<["Unused" := Custom "U"]> sampleComponents)) m
            = entry sampleComponents m) as Hentries.
  { intros m. cbn. rewrite !elem_of_cons.
    intros [->|[->|[->|[->|[]%elem_of_nil]]]]; vm_compute; reflexivity. }
  split; [exact Hentries|].
  exact (registry_read_at_nodes_only _ sampleComponents sampleStructure Fragment Hentries).
Defined.

(** ** The size of a composed unit *)

Lemma allNodes_cons next other : allNodes (next :: other) = nodesOf next ++ allNodes other.
Proof. reflexivity. Qed.

Lemma shapeCount_entry components name :
  foreign components → shapeCount (default Fragment (components !! name)) = 0.
Proof.
  intros Hforeign. destruct (components !! name) as [unit|] eqn:Hentry; [|done].
  apply Hforeign in Hentry. by destruct unit.
Qed.

Lemma shapeCount_siblings components structure :
  Forall (λ n, ∀ Component Result,
            getComponent components n = Ok Component →
            shapeCount (nextShape n Result Component)
            = shapeCount Result + length (nodesOf n)
              + length (filter (λ m, isContainer m = true) (nodesOf n)))
         structure →
  ∀ Result H,
    getRecursiveHOC components structure Result = Ok H →
    shapeCount H
    = shapeCount Result + length (allNodes structure)
      + length (filter (λ m, isContainer m = true) (allNodes structure)).
Proof.
  induction 1 as [|next other Hnext _ IHother]; intros Result H; [done|].
  rewrite allNodes_cons, filter_app, !length_app.
  intros (C & HC & [[-> ->]|[_ Hrec]])%getRecursiveHOC_cons_Ok.
  - rewrite (Hnext _ _ HC). cbn. lia.
  - rewrite (IHother _ _ Hrec), (Hnext _ _ HC). lia.
Qed.

Lemma shapeCount_node components n :
  foreign components →
  ∀ Component Result,
    getComponent components n = Ok Component →
    shapeCount (nextShape n Result Component)
    = shapeCount Result + length (nodesOf n)
      + length (filter (λ m, isContainer m = true) (nodesOf n)).
Proof.
  intros Hforeign.
  induction n as [nid ncomponent|nid ncomponent ch IH]
    using ComponentStructure_nested_ind; intros C Result HC.
  - rewrite getComponent_leaf in HC. injection HC as <-.
    rewrite nextShape_leaf. cbn [shapeCount nodesOf].
    rewrite shapeCount_entry by done.
    rewrite filter_cons_False by (by cbn).
    cbn. lia.
  - rewrite getComponent_container in HC.
    destruct (getRecursiveHOC components ch Fragment) as [Content|] eqn:Hch;
      cbn in HC; [|done].
    injection HC as <-. rewrite nextShape_container.
    change (default Fragment (Some ?unit)) with unit.
    cbn [shapeCount nodesOf]. rewrite shapeCount_entry by done.
    rewrite (shapeCount_siblings components ch IH _ _ Hch).
    rewrite filter_cons_True by (by cbn).
    fold (allNodes ch). cbn. lia.
Qed.

(** X8: over a registry of the caller's own components, the composed unit
    holds one closure of [getShape] for every node of the structure and one
    more for every container, besides those of the [Result] it started
    from. *)
Theorem composed_unit_size components structure Result H :
  foreign components →
  getRecursiveHOC components structure Result = Ok H →
  shapeCount H
  = shapeCount Result + length (allNodes structure)
    + length (filter (λ m, isContainer m = true) (allNodes structure)).
Proof.
  intros Hforeign. apply shapeCount_siblings, Forall_forall.
  intros n _. by apply shapeCount_node.
Qed.

Lemma composed_unit_size_witness :
  foreign sampleComponents
  ∧ getRecursiveHOC sampleComponents sampleStructure Fragment = Ok sampleUnit
  ∧ shapeCount sampleUnit = 0 + 4 + 1.
Proof.
  assert (getRecursiveHOC sampleComponents sampleStructure Fragment = Ok sampleUnit)
    as HH by (vm_compute; reflexivity).
  split; [exact sampleComponents_foreign|]. split; [exact HH|].
  exact (composed_unit_size sampleComponents sampleStructure Fragment sampleUnit
           sampleComponents_foreign HH).
Defined.

(** ** The bag is read at the keys of the nodes only *)

Lemma nodeProps_agree components props props' n :
  addressed n = true →
  get props (id n) = get props' (id n) →
  get props (nameWithProps (component n)) = get props' (nameWithProps (component n)) →
  nodeProps components props n = nodeProps components props' n.
Proof.
  intros Haddressed Hid Hname. unfold nodeProps.
  rewrite !getMappedProps_active by done. by rewrite Hid, Hname.
Qed.

Lemma renderNode_agree components props props' n :
  (∀ m, m ∈ nodesOf n →
     addressed m = true
     ∧ get props (id m) = get props' (id m)
     ∧ get props (nameWithProps (component m))
       = get props' (nameWithProps (component m))) →
  renderNode components props n = renderNode components props' n.
Proof.
  induction n as [nid ncomponent|nid ncomponent ch IH]
    using ComponentStructure_nested_ind; intros Hkeys;
    destruct (Hkeys _ (list_elem_of_here _ _)) as (Haddressed & Hid & Hname);
    rewrite !renderNode_entry, (nodeProps_agree components props props') by done;
    [done|].
  cbn [children]. f_equal. apply flat_map_ext_Forall.
  rewrite Forall_forall in IH. apply Forall_forall. intros c Hc.
  apply (IH c Hc). intros m Hm. apply Hkeys. cbn [nodesOf]. right.
  apply list_elem_of_In, in_flat_map. exists c. by rewrite <- !list_elem_of_In.
Qed.

(** X9: when every node has a non-empty id or component name, what the unit
    of the default export draws depends on the bag only through its values
    at the ids of the nodes and at their type-level keys: two bags that
    agree there are drawn alike, whatever else they hold. *)
Theorem drawing_reads_node_keys_only components structure H props props' :
  (∀ m, m ∈ allNodes structure →
     addressed m = true
     ∧ get props (id m) = get props' (id m)
     ∧ get props (nameWithProps (component m))
       = get props' (nameWithProps (component m))) →
  getRecursiveHOC_default components structure = Ok H →
  render H props [] = render H props' [].
Proof.
  intros Hkeys HH.
  rewrite !(composed_render components structure Fragment H _ []) by done.
  cbn [render app]. unfold renderTree.
  apply flat_map_ext_Forall, Forall_forall. intros n Hn.
  apply renderNode_agree. intros m Hm. apply Hkeys.
  apply list_elem_of_In, in_flat_map. exists n. by rewrite <- !list_elem_of_In.
Qed.

Lemma drawing_reads_node_keys_only_witness :
  let props' := <["other" := VNum 5]> sampleBag in
  (∀ m, m ∈ allNodes sampleStructure →
     addressed m = true
     ∧ get sampleBag (id m) = get props' (id m)
     ∧ get sampleBag (nameWithProps (component m))
       = get props' (nameWithProps (component m)))
  ∧ getRecursiveHOC_default sampleComponents sampleStructure = Ok sampleUnit
  ∧ render sampleUnit sampleBag [] = render sampleUnit props' [].
Proof.
  assert (∀ m, m ∈ allNodes sampleStructure →
     addressed m = true
     ∧ get sampleBag (id m) = get (<["other" := VNum 5]> sampleBag) (id m)
     ∧ get sampleBag (nameWithProps (component m))
       = get (<["other" := VNum 5]> sampleBag) (nameWithProps (component m)))
    as Hkeys.
  { intros m. cbn. rewrite !elem_of_cons.
    intros [->|[->|[->|[->|[]%elem_of_nil]]]];
      (split; [reflexivity|split; vm_compute; reflexivity]). }
  assert (getRecursiveHOC_default sampleComponents sampleStructure = Ok sampleUnit)
    as HH by (vm_compute; reflexivity).
  split; [exact Hkeys|]. split; [exact HH|].
  exact (drawing_reads_node_keys_only sampleComponents sampleStructure sampleUnit
           sampleBag _ Hkeys HH).
Defined.
